(** * sample_watermark_eraser: the geometry transform and the adversarial
      training loop, embedded in Rocq.

    Sources embedded here:
    - [src/data/trans.py]  : class [PadResize]
    - [src/train_GAN.py]   : class [Trainer] ([__init__], [build_model],
                             [build_data], [train], [test])

    Python floats are IEEE-754 binary64 numbers; [Float64] gives them their
    exact semantics through the executable specification of the Standard
    Library ([SpecFloat], precision 53, maximal exponent 1024).  The tensor
    library, the two networks, autograd, AdamW and the PSNR helper are
    collaborators of the training loop: they are the fields of the class
    [Torch], and every statement about the loop holds for all of them. *)

From Stdlib Require Import String Ascii DecimalString DecimalNat.
From Stdlib Require Import ZArith List Bool Lia PeanoNat.
From Stdlib Require Import Floats.SpecFloat.
Import ListNotations.

(* ================================================================= *)
(** * Python floats *)

Module Float64.

Definition prec : Z := 53.
Definition emax : Z := 1024.

Definition float : Type := spec_float.

(** [float(n)] for an [int] [n]: exact whenever [|n| < 2^53], which covers
    every image dimension. *)
Definition of_int (n : Z) : float := binary_normalize prec emax n 0 false.

Definition mul (x y : float) : float := SFmul prec emax x y.
Definition add (x y : float) : float := SFadd prec emax x y.
Definition div (x y : float) : float := SFdiv prec emax x y.

(** [a / b] on two [int]s: true division, [ZeroDivisionError] when
    [b == 0]. *)
Definition int_true_div (a b : Z) : option float :=
  if Z.eqb b 0 then None else Some (div (of_int a) (of_int b)).

(** [x / n] for a float [x] and an [int] [n]. *)
Definition div_int (x : float) (n : Z) : float := div x (of_int n).

(** [int(x)]: truncation toward zero; [OverflowError] on an infinity and
    [ValueError] on a NaN. *)
Definition int_of_float (x : float) : option Z :=
  match x with
  | S754_zero _ => Some 0%Z
  | S754_finite s m e => Some (cond_Zopp s (Z.shiftl (Zpos m) e))
  | S754_infinity _ | S754_nan => None
  end.

(** A finite float rounded down: the greatest integer not above it. *)
Definition floor (x : float) : option Z :=
  match x with
  | S754_zero _ => Some 0%Z
  | S754_finite s m e => Some (Z.shiftl (cond_Zopp s (Zpos m)) e)
  | S754_infinity _ | S754_nan => None
  end.

(** A float of sign [s] that is a zero, or a finite number of exponent at
    most [E] whose leading bit is below [2^Mg]. *)
Definition bounded_float (s : bool) (E Mg : Z) (x : float) : Prop :=
  x = S754_zero s \/
  exists m e, x = S754_finite s m e /\ (e <= E)%Z /\ (Zpos (digits2_pos m) + e <= Mg)%Z.

End Float64.

(* ================================================================= *)
(** * src/data/trans.py *)

Module Trans.

Open Scope Z_scope.

Inductive InterpolationMode := NEAREST | BILINEAR | BICUBIC.

(** A PIL image as the transform sees it: the size of the image it was
    given, and the torchvision calls applied on top of it. *)
Inductive Image : Type :=
| Opened (width height : Z)
| Resized (img : Image) (height width : Z)
          (interpolation : InterpolationMode) (antialias : bool)
| Padded (img : Image) (left top right bottom : Z).

(** [img.size], as [(width, height)]. *)
Fixpoint size (img : Image) : Z * Z :=
  match img with
  | Opened w h => (w, h)
  | Resized _ h w _ _ => (w, h)
  | Padded i l t r b => let '(w, h) := size i in (l + w + r, t + h + b)
  end.

Definition width (img : Image) : Z := fst (size img).
Definition height (img : Image) : Z := snd (size img).

(** A PIL image has a positive width and a non-negative height, both
    C integers. *)
Definition well_sized (img : Image) : Prop :=
  0 < width img < 2 ^ 31 /\ 0 <= height img < 2 ^ 31.

(** [F.resize(img, [h, w], interpolation, antialias=...)] on a PIL image,
    as far as sizes go.  PIL refuses a requested size with a side below 1
    ([ValueError: height and width must be > 0]); [None] stands for that
    exception. *)
Definition F_resize (img : Image) (sz : Z * Z)
           (interpolation : InterpolationMode) (antialias : bool) : option Image :=
  if (fst sz <? 1) || (snd sz <? 1) then None
  else Some (Resized img (fst sz) (snd sz) interpolation antialias).

(** [F.pad(img, [left, top, right, bottom])] *)
Definition F_pad (img : Image) (left top right bottom : Z) : Image :=
  Padded img left top right bottom.

Record PadResize : Type := {
  w : Z;
  interpolation : InterpolationMode;
  make_pad : bool
}.

(** [PadResize.__init__] with its defaults. *)
Definition PadResize_init (w : Z) : PadResize :=
  {| w := w; interpolation := BILINEAR; make_pad := true |}.

(** [hs = int((h/w)*self.w)] *)
Definition scaled_height (h w0 target : Z) : option Z :=
  match Float64.int_true_div h w0 with
  | None => None
  | Some q => Float64.int_of_float (Float64.mul q (Float64.of_int target))
  end.

(** [h_pad = (self.w-hs)//2] and the bottom padding [(self.w-hs)-h_pad]. *)
Definition h_pad (target hs : Z) : Z := (target - hs) / 2.
Definition bottom_pad (target hs : Z) : Z := (target - hs) - h_pad target hs.

(** [PadResize.__call__]; [None] stands for a raised exception. *)
Definition call (self : PadResize) (img : Image) : option Image :=
  let '(w0, h) := size img in
  match scaled_height h w0 (w self) with
  | None => None
  | Some hs =>
      match F_resize img (hs, w self) (interpolation self) false with
      | None => None
      | Some img =>
          if make_pad self && (hs <? w self)
          then Some (F_pad img 0 (h_pad (w self) hs) 0 (bottom_pad (w self) hs))
          else Some img
      end
  end.

(** The last torchvision call of [__call__] was a padding. *)
Definition is_padded (img : Image) : bool :=
  match img with Padded _ _ _ _ _ => true | _ => false end.

End Trans.

(* ================================================================= *)
(** * src/train_GAN.py *)

Module Train.

(** The two networks of the trainer: [self.net_G] and [self.net_D]. *)
Inductive Net := G | D.

(** ** Collaborators

    Everything [train_GAN.py] imports and calls: tensors and their
    arithmetic, Python float arithmetic, the two networks ([models]), the
    loss modules, autograd, AdamW, [cal_psnr] ([utils]), the shuffling of a
    [DataLoader] and the sum collective of [accelerate]. *)
Class Torch : Type := {
  tensor : Type;
  pyfloat : Type;
  weights : Type;                 (* a [state_dict] *)
  grads : Type;                   (* the [.grad] of the parameters of a network *)
  moments : Type;                 (* the internal state of an AdamW optimizer *)
  (* Python floats *)
  py_float : Z -> pyfloat;                      (* [float(n)] *)
  py_half : pyfloat;                            (* the literal [0.5] *)
  py_add : pyfloat -> pyfloat -> pyfloat;
  py_div_int : pyfloat -> Z -> pyfloat;         (* [x / n] *)
  (* tensors *)
  torch_tensor : pyfloat -> tensor;             (* [torch.tensor(x)] *)
  item : tensor -> pyfloat;                     (* [t.item()] *)
  t_add : tensor -> tensor -> tensor;           (* [a + b] *)
  t_scale : pyfloat -> tensor -> tensor;        (* [x * t] *)
  t_div_int : tensor -> Z -> tensor;            (* [t / n] *)
  t_sum : tensor -> tensor;                     (* [t.sum()] *)
  stack : list tensor -> tensor;                (* default collation *)
  (* loss modules *)
  MSELoss : tensor -> tensor -> tensor;
  SmoothL1Loss : tensor -> tensor -> tensor;
  (* networks: output on an input, given the mode flag and the weights *)
  NAFNet : bool -> weights -> tensor -> tensor;
  Discriminator : bool -> weights -> tensor -> tensor;
  initial_weights : Net -> weights;
  (* autograd: gradient of the generator loss of a step with respect to
     the parameters of a network, and of the discriminator loss with
     respect to the discriminator's parameters *)
  grad_loss_G : Net -> weights -> weights -> tensor -> tensor -> tensor
                -> pyfloat -> grads;
  grad_loss_D : weights -> tensor -> tensor -> tensor -> grads;
  grads_add : grads -> grads -> grads;
  (* AdamW *)
  initial_moments : moments;
  adamw : pyfloat -> moments -> weights -> grads -> weights * moments;
  (* utils.cal_psnr(pred, target, mean, std): one value per sample *)
  cal_psnr : tensor -> tensor -> tensor -> tensor -> tensor;
  (* the order in which a shuffling loader yields its samples in an epoch *)
  shuffled : nat -> list (tensor * tensor * tensor)
             -> list (tensor * tensor * tensor);
  (* the sum collective over the contributions of all processes *)
  all_reduce_sum : list tensor -> tensor
}.

Section Trainer.

Context {T : Torch}.

(** ** Data loading *)

Definition sample : Type := (tensor * tensor * tensor)%type.
Definition batch : Type := (tensor * tensor * tensor)%type.

Record DataLoader : Type := {
  dataset : list sample;
  batch_size : nat;
  shuffle : bool
}.

Fixpoint chunks_aux (fuel n : nat) (l : list sample) : list (list sample) :=
  match fuel with
  | O => []
  | S fuel' =>
      match l with
      | [] => []
      | _ :: _ => firstn n l :: chunks_aux fuel' n (skipn n l)
      end
  end.

(** Consecutive groups of [n] samples, the last one possibly shorter. *)
Definition chunks (n : nat) (l : list sample) : list (list sample) :=
  chunks_aux (length l) n l.

Definition collate (l : list sample) : batch :=
  (stack (map (fun x => fst (fst x)) l),
   stack (map (fun x => snd (fst x)) l),
   stack (map snd l)).

(** The groups of samples a loader yields in epoch [ep]. *)
Definition sample_groups (ld : DataLoader) (ep : nat) : list (list sample) :=
  chunks (batch_size ld)
         (if shuffle ld then shuffled ep (dataset ld) else dataset ld).

(** Iterating a loader in epoch [ep]. *)
Definition batches (ld : DataLoader) (ep : nat) : list batch :=
  map collate (sample_groups ld ep).

(** [len(loader)] *)
Definition len_loader (ld : DataLoader) : nat :=
  length (chunks (batch_size ld) (dataset ld)).

(** How many samples one pass over the loader visits. *)
Definition samples_seen (ld : DataLoader) (ep : nat) : nat :=
  length (concat (sample_groups ld ep)).

(** ** The accelerator *)

Record Accelerator : Type := {
  process_index : nat;          (* rank in the whole run *)
  local_process_index : nat;    (* rank on its machine *)
  num_processes : nat
}.

Definition is_local_main_process (a : Accelerator) : bool :=
  Nat.eqb (local_process_index a) 0.

(** What [accelerator.prepare] returns for a loader: a new loader object
    that yields the share of the batches of this process.  The trainer
    never iterates it, so what it yields is not represented. *)
Record DataLoaderShard : Type := {
  base_loader : DataLoader;
  shard_index : nat;
  num_shards : nat
}.

(** ** Mutable objects of the trainer *)

Record Module_ : Type := {
  state_dict : weights;
  training : bool;              (* [.train()] / [.eval()] *)
  requires_grad : bool;         (* [.requires_grad_(b)] *)
  grad : option grads
}.

(** An optimizer built over the parameters of network [n]
    ([torch.optim.AdamW(net.parameters(), lr=...)]). *)
Record AdamW (n : Net) : Type := {
  lr : pyfloat;
  opt_state : moments
}.
Arguments lr {n} _.
Arguments opt_state {n} _.

Inductive event : Type :=
| Forward (net : Net) (train_mode : bool) (input : tensor)
| LogTrain (ep epochs step len : nat) (loss_G loss_D lr : pyfloat)
| LogPsnr (psnr : tensor)
| Save (path : string) (obj : weights).

Record State : Type := {
  net_G : Module_;
  net_D : Module_;
  optimizer : AdamW G;
  optimizer_D : AdamW D;
  loss_sum_G : pyfloat;
  loss_sum_D : pyfloat;
  events : list event           (* forward passes, log records, files written *)
}.

(** The arguments [train] reads.  [log_step] is a window length: the model
    covers the positive ones. *)
Record Args : Type := {
  epochs : nat;
  log_step : positive;
  alpha_arg : pyfloat;
  lr_arg : pyfloat;
  bs : nat
}.

(** The attributes of [self] that [train] and [test] only read. *)
Record Trainer : Type := {
  args : Args;
  alpha : pyfloat;
  accelerator : Accelerator;
  data_train : list sample;
  data_test : list sample;
  train_loader : DataLoader;
  test_loader : DataLoader
}.

(** *** Field updates *)

Definition get_net (n : Net) (s : State) : Module_ :=
  match n with G => net_G s | D => net_D s end.

Definition set_net (n : Net) (m : Module_) (s : State) : State :=
  match n with
  | G => {| net_G := m; net_D := net_D s; optimizer := optimizer s;
            optimizer_D := optimizer_D s; loss_sum_G := loss_sum_G s;
            loss_sum_D := loss_sum_D s; events := events s |}
  | D => {| net_G := net_G s; net_D := m; optimizer := optimizer s;
            optimizer_D := optimizer_D s; loss_sum_G := loss_sum_G s;
            loss_sum_D := loss_sum_D s; events := events s |}
  end.

Definition set_optimizer (o : AdamW G) (s : State) : State :=
  {| net_G := net_G s; net_D := net_D s; optimizer := o;
     optimizer_D := optimizer_D s; loss_sum_G := loss_sum_G s;
     loss_sum_D := loss_sum_D s; events := events s |}.

Definition set_optimizer_D (o : AdamW D) (s : State) : State :=
  {| net_G := net_G s; net_D := net_D s; optimizer := optimizer s;
     optimizer_D := o; loss_sum_G := loss_sum_G s;
     loss_sum_D := loss_sum_D s; events := events s |}.

Definition set_loss_sums (g d : pyfloat) (s : State) : State :=
  {| net_G := net_G s; net_D := net_D s; optimizer := optimizer s;
     optimizer_D := optimizer_D s; loss_sum_G := g;
     loss_sum_D := d; events := events s |}.

Definition emit (e : event) (s : State) : State :=
  {| net_G := net_G s; net_D := net_D s; optimizer := optimizer s;
     optimizer_D := optimizer_D s; loss_sum_G := loss_sum_G s;
     loss_sum_D := loss_sum_D s; events := events s ++ [e] |}.

Definition with_training (b : bool) (m : Module_) : Module_ :=
  {| state_dict := state_dict m; training := b;
     requires_grad := requires_grad m; grad := grad m |}.

Definition with_requires_grad (b : bool) (m : Module_) : Module_ :=
  {| state_dict := state_dict m; training := training m;
     requires_grad := b; grad := grad m |}.

Definition with_grad (g : option grads) (m : Module_) : Module_ :=
  {| state_dict := state_dict m; training := training m;
     requires_grad := requires_grad m; grad := g |}.

Definition with_state_dict (w : weights) (m : Module_) : Module_ :=
  {| state_dict := w; training := training m;
     requires_grad := requires_grad m; grad := grad m |}.

(** ** Statements

    A computation returns its value, the final state, and the states
    reached after each statement it executed, in order. *)
Definition M (A : Type) : Type := State -> A * State * list State.

Definition ret {A : Type} (a : A) : M A := fun s => (a, s, []).

Definition bind {A B : Type} (m : M A) (f : A -> M B) : M B :=
  fun s =>
    let '(a, s1, t1) := m s in
    let '(b, s2, t2) := f a s1 in
    (b, s2, t1 ++ t2).

Definition stmt (f : State -> State) : M unit :=
  fun s => (tt, f s, [f s]).

Definition value {A : Type} (r : A * State * list State) : A := fst (fst r).
Definition final {A : Type} (r : A * State * list State) : State := snd (fst r).
Definition points {A : Type} (r : A * State * list State) : list State := snd r.

Declare Scope py_scope.
Delimit Scope py_scope with py.
Notation "x <- m ;; k" := (bind m (fun x => k))
  (at level 61, m at next level, right associativity) : py_scope.
Notation "m ;; k" := (bind m (fun _ => k))
  (at level 61, right associativity) : py_scope.
Local Open Scope py_scope.

Fixpoint for_each {A : Type} (f : A -> M unit) (l : list A) : M unit :=
  match l with
  | [] => ret tt
  | x :: l' => f x ;; for_each f l'
  end.

Definition enumerate {A : Type} (l : list A) : list (nat * A) :=
  combine (seq 0 (length l)) l.

Definition upd_net (n : Net) (f : Module_ -> Module_) (s : State) : State :=
  set_net n (f (get_net n s)) s.

(** [net.train()], [net.eval()], [net.requires_grad_(b)] *)
Definition module_train (n : Net) : M unit := stmt (upd_net n (with_training true)).
Definition module_eval (n : Net) : M unit := stmt (upd_net n (with_training false)).
Definition module_requires_grad_ (n : Net) (b : bool) : M unit :=
  stmt (upd_net n (with_requires_grad b)).

(** [opt.zero_grad()] clears the gradients of the parameters [opt] was
    built over. *)
Definition zero_grad {n : Net} (opt : State -> AdamW n) : M unit :=
  stmt (upd_net n (with_grad None)).

Definition apply_net (n : Net) (m : Module_) (x : tensor) : tensor :=
  match n with
  | G => NAFNet (training m) (state_dict m) x
  | D => Discriminator (training m) (state_dict m) x
  end.

(** [net(x)] *)
Definition forward (n : Net) (x : tensor) : M tensor :=
  fun s =>
    let s' := emit (Forward n (training (get_net n s)) x) s in
    (apply_net n (get_net n s) x, s', [s']).

(** Autograd accumulates a gradient into [.grad] only for parameters that
    require it. *)
Definition deposit (g : option grads) (m : Module_) : Module_ :=
  if requires_grad m then
    match g with
    | None => m
    | Some g1 =>
        with_grad (Some (match grad m with
                         | None => g1
                         | Some g0 => grads_add g0 g1
                         end)) m
    end
  else m.

(** [self.accelerator.backward(loss)]; [g s n] is the gradient of [loss]
    with respect to the parameters of [n], when the graph of [loss]
    reaches them. *)
Definition accelerator_backward (g : State -> Net -> option grads) : M unit :=
  stmt (fun s => upd_net D (deposit (g s D)) (upd_net G (deposit (g s G)) s)).

(** [opt.step()]: parameters without a gradient are skipped. *)
Definition optimizer_step {n : Net} (opt : State -> AdamW n)
           (store : AdamW n -> State -> State) : M unit :=
  stmt (fun s =>
    let o := opt s in
    let m := get_net n s in
    match grad m with
    | None => s
    | Some g =>
        let r := adamw (lr o) (opt_state o) (state_dict m) g in
        store {| lr := lr o; opt_state := snd r |}
              (set_net n (with_state_dict (fst r) m) s)
    end).

(** [logger.info(...)]: the logger is disabled off the local main
    process ([Trainer.__init__]). *)
Definition logger_info (self : Trainer) (e : State -> event) : M unit :=
  if is_local_main_process (accelerator self)
  then stmt (fun s => emit (e s) s)
  else ret tt.

(** ** [Trainer.train] *)

Definition valid : tensor := torch_tensor (py_float 1).
Definition fake : tensor := torch_tensor (py_float 0).

Definition criterion_gan : tensor -> tensor -> tensor := MSELoss.
Definition criterion : tensor -> tensor -> tensor := SmoothL1Loss.

Definition graph_loss_G (self : Trainer) (img img_clean fake_mark : tensor)
  : State -> Net -> option grads :=
  fun s n =>
    Some (grad_loss_G n (state_dict (net_G s)) (state_dict (net_D s))
                      img img_clean fake_mark (alpha self)).

(** [fake_A.detach()] cuts the graph of the discriminator loss off the
    generator. *)
Definition graph_loss_D (img img_clean fake_A : tensor)
  : State -> Net -> option grads :=
  fun s n =>
    match n with
    | G => None
    | D => Some (grad_loss_D (state_dict (net_D s)) img_clean img fake_A)
    end.

(** Lines 102-117; returns the locals [fake_A] and [loss]. *)
Definition generator_phase (self : Trainer) (img img_clean fake_mark : tensor)
  : M (tensor * tensor) :=
  module_train G ;;
  module_requires_grad_ G true ;;
  module_eval D ;;
  module_requires_grad_ D false ;;
  zero_grad optimizer ;;
  fake_A <- forward G img ;;
  fake_B <- forward G fake_mark ;;
  pred_fake_A <- forward D fake_A ;;
  let loss := t_add (criterion_gan pred_fake_A valid)
                    (t_scale (alpha self) (criterion img_clean fake_B)) in
  accelerator_backward (graph_loss_G self img img_clean fake_mark) ;;
  optimizer_step optimizer set_optimizer ;;
  stmt (fun s => set_loss_sums (py_add (loss_sum_G s) (item loss)) (loss_sum_D s) s) ;;
  ret (fake_A, loss).

(** Lines 120-136; returns the local [loss]. *)
Definition discriminator_phase (self : Trainer) (img img_clean fake_A : tensor)
  : M tensor :=
  module_eval G ;;
  module_requires_grad_ G false ;;
  module_train D ;;
  module_requires_grad_ D true ;;
  zero_grad optimizer_D ;;
  pred_real <- forward D img_clean ;;
  pred_img_fake <- forward D img ;;
  pred_fake <- forward D fake_A ;;
  let loss := t_div_int (t_add (t_add (criterion_gan pred_real valid)
                                      (criterion_gan pred_fake fake))
                               (criterion_gan pred_img_fake fake)) 2 in
  accelerator_backward (graph_loss_D img img_clean fake_A) ;;
  optimizer_step optimizer_D set_optimizer_D ;;
  stmt (fun s => set_loss_sums (loss_sum_G s) (py_add (loss_sum_D s) (item loss)) s) ;;
  ret loss.

(** [step % self.args.log_step == 0] *)
Definition log_due (self : Trainer) (step : nat) : bool :=
  Nat.eqb (step mod Pos.to_nat (log_step (args self))) 0.

Definition train_record (self : Trainer) (ep step : nat) (s : State) : event :=
  LogTrain (ep + 1) (epochs (args self)) (step + 1) (len_loader (train_loader self))
           (py_div_int (loss_sum_G s) (Zpos (log_step (args self))))
           (py_div_int (loss_sum_D s) (Zpos (log_step (args self))))
           (lr (optimizer s)).

(** Lines 138-144. *)
Definition logging (self : Trainer) (ep step : nat) : M unit :=
  if log_due self step then
    logger_info self (train_record self ep step) ;;
    stmt (fun s => set_loss_sums (py_float 0) (loss_sum_D s) s) ;;
    stmt (fun s => set_loss_sums (loss_sum_G s) (py_float 0) s)
  else ret tt.

(** The body of the inner loop, lines 97-144. *)
Definition train_step (self : Trainer) (ep : nat) (it : nat * batch) : M unit :=
  let '(step, (img, img_clean, fake_mark)) := it in
  r <- generator_phase self img img_clean fake_mark ;;
  discriminator_phase self img img_clean (fst r) ;;
  logging self ep step.

(** ** [Trainer.test] *)

Fixpoint test_loop (mean std : tensor) (psnr : pyfloat) (l : list batch)
  : M pyfloat :=
  match l with
  | [] => ret psnr
  | (img, img_clean, img_mask) :: l' =>
      pred <- forward G img ;;
      test_loop mean std
                (py_add psnr (item (t_sum (cal_psnr pred img_clean mean std)))) l'
  end.

(** Lines 151-161: the sum of the PSNR values over what
    [self.test_loader] yields. *)
Definition test_local (self : Trainer) (ep : nat) : M pyfloat :=
  module_eval G ;;
  test_loop (torch_tensor py_half) (torch_tensor py_half) (py_float 0)
            (batches (test_loader self) ep).

(** Lines 151-166 up to the value that is logged; [reduce] is
    [accelerator.reduce(_, reduction="sum")] as this process sees it. *)
Definition test_mean (self : Trainer) (reduce : tensor -> tensor) (ep : nat)
  : M tensor :=
  psnr <- test_local self ep ;;
  let psnr := torch_tensor psnr in
  let psnr := reduce psnr in
  ret (t_div_int psnr (Z.of_nat (length (data_test self)))).

Definition test (self : Trainer) (reduce : tensor -> tensor) (ep : nat) : M unit :=
  v <- test_mean self reduce ep ;;
  logger_info self (fun _ => LogPsnr v).

(** [f'output_GAN/ep_{ep}.pth'] *)
Definition checkpoint_path (ep : nat) : string :=
  ("output_GAN/ep_" ++ NilEmpty.string_of_uint (Nat.to_uint ep) ++ ".pth")%string.

(** Lines 146-147. *)
Definition save_checkpoint (self : Trainer) (ep : nat) : M unit :=
  if is_local_main_process (accelerator self)
  then stmt (fun s => emit (Save (checkpoint_path ep) (state_dict (net_G s))) s)
  else ret tt.

(** The inner loop of an epoch, line 96. *)
Definition epoch_steps (self : Trainer) (ep : nat) : M unit :=
  for_each (train_step self ep) (enumerate (batches (train_loader self) ep)).

(** The body of the outer loop, lines 96-147. *)
Definition epoch (self : Trainer) (reduce : nat -> tensor -> tensor) (ep : nat)
  : M unit :=
  epoch_steps self ep ;;
  test self (reduce ep) ep ;;
  save_checkpoint self ep.

(** Lines 94-147; [reduce ep] is the sum collective of epoch [ep]. *)
Definition train (self : Trainer) (reduce : nat -> tensor -> tensor) : M unit :=
  stmt (fun s => set_loss_sums (py_float 0) (py_float 0) s) ;;
  for_each (epoch self reduce) (seq 0 (epochs (args self))).

(** ** [Trainer.__init__] *)

Definition build_data (a : Args) (train_set test_set : list sample)
  : DataLoader * DataLoader :=
  ({| dataset := train_set; batch_size := bs a; shuffle := true |},
   {| dataset := test_set; batch_size := bs a; shuffle := false |}).

Definition build_model (a : Args) : Module_ * Module_ * AdamW G * AdamW D :=
  let net_G := {| state_dict := initial_weights G; training := true;
                  requires_grad := true; grad := None |} in
  let net_D := {| state_dict := initial_weights D; training := true;
                  requires_grad := true; grad := None |} in
  (net_G, net_D,
   {| lr := lr_arg a; opt_state := initial_moments |},
   {| lr := lr_arg a; opt_state := initial_moments |}).

(** [accelerator.prepare(net_G, net_D, optimizer, train_loader,
    test_loader)]: the networks and the optimizer come back wrapped, each
    loader comes back as a new loader restricted to this process. *)
Definition accelerator_prepare (acc : Accelerator) (g d : Module_) (o : AdamW G)
           (l1 l2 : DataLoader)
  : Module_ * Module_ * AdamW G * DataLoaderShard * DataLoaderShard :=
  (g, d, o,
   {| base_loader := l1; shard_index := process_index acc;
      num_shards := num_processes acc |},
   {| base_loader := l2; shard_index := process_index acc;
      num_shards := num_processes acc |}).

(** Lines 18-43.  The two loaders returned by [prepare] are bound to the
    local names [train_loader] and [val_loader]; [self.train_loader] and
    [self.test_loader] keep the loaders of [build_data]. *)
Definition Trainer_init (a : Args) (acc : Accelerator)
           (train_set test_set : list sample) : Trainer * State :=
  let '(self_train_loader, self_test_loader) := build_data a train_set test_set in
  let '(net_G0, net_D0, optimizer0, optimizer_D0) := build_model a in
  let '(net_G1, net_D1, optimizer1, train_loader, val_loader) :=
    accelerator_prepare acc net_G0 net_D0 optimizer0
                        self_train_loader self_test_loader in
  ({| args := a; alpha := alpha_arg a; accelerator := acc;
      data_train := train_set; data_test := test_set;
      train_loader := self_train_loader;
      test_loader := self_test_loader |},
   {| net_G := net_G1; net_D := net_D1;
      optimizer := optimizer1; optimizer_D := optimizer_D0;
      loss_sum_G := py_float 0; loss_sum_D := py_float 0;
      events := [] |}).

(** ** Several processes *)

(** One [Trainer] per process of the run, all launched on the same
    arguments and data. *)
Definition launch (a : Args) (accs : list Accelerator)
           (train_set test_set : list sample) : list (Trainer * State) :=
  map (fun acc => Trainer_init a acc train_set test_set) accs.

(** The PSNR sum a process contributes to the collective of [test]. *)
Definition local_psnr (ep : nat) (w : Trainer * State) : pyfloat :=
  value (test_local (fst w) ep (snd w)).

(** The sum the collective returns to every process. *)
Definition world_total (ep : nat) (ws : list (Trainer * State)) : tensor :=
  all_reduce_sum (map (fun w => torch_tensor (local_psnr ep w)) ws).

(** The mean PSNR each process computes in [test] when all the processes
    of [ws] run it together. *)
Definition world_test (ep : nat) (ws : list (Trainer * State)) : list tensor :=
  map (fun w => value (test_mean (fst w) (fun _ => world_total ep ws) ep (snd w))) ws.

(** The processes that write checkpoints. *)
Definition writers (accs : list Accelerator) : list Accelerator :=
  filter is_local_main_process accs.

(** *** Observations on a run *)

Definition trainable (n : Net) (s : State) : bool := requires_grad (get_net n s).

Definition exactly_one_trainable (s : State) : bool :=
  xorb (trainable G s) (trainable D s).

Definition is_forward_of (n : Net) (e : event) : bool :=
  match e, n with
  | Forward G _ _, G => true
  | Forward D _ _, D => true
  | _, _ => false
  end.

Definition is_save (e : event) : bool :=
  match e with Save _ _ => true | _ => false end.

Definition is_log_train (e : event) : bool :=
  match e with LogTrain _ _ _ _ _ _ _ => true | _ => false end.

(** The values [loss.item()] takes in the two phases of a step run on
    batch [b] from [s]. *)
Definition step_losses (self : Trainer) (b : batch) (s : State)
  : pyfloat * pyfloat :=
  let '(img, img_clean, fake_mark) := b in
  let r := generator_phase self img img_clean fake_mark s in
  (item (snd (value r)),
   item (value (discriminator_phase self img img_clean (fst (value r)) (final r)))).

(** The events a computation adds when run from [s]. *)
Definition emitted {A : Type} (m : M A) (s : State) : list event :=
  skipn (length (events s)) (events (final (m s))).

(** [m] only appends events, and each of them satisfies [P]. *)
Definition appends {A : Type} (P : event -> Prop) (m : M A) : Prop :=
  forall s, exists l, events (final (m s)) = events s ++ l /\ Forall P l.

(** A state update that leaves the event log alone. *)
Definition silent (f : State -> State) : Prop :=
  forall s, events (f s) = events s.

Definition not_save (e : event) : Prop := is_save e = false.
Definition anything (e : event) : Prop := True.

(** The two running sums. *)
Definition sums (s : State) : pyfloat * pyfloat := (loss_sum_G s, loss_sum_D s).

(** The state [train] reaches from [s] after its first [k] epochs. *)
Definition after_epochs (self : Trainer) (reduce : nat -> tensor -> tensor)
           (s : State) (k : nat) : State :=
  final (for_each (epoch self reduce) (seq 0 k)
                  (set_loss_sums (py_float 0) (py_float 0) s)).

(** The [n] processes of a run on one machine. *)
Definition single_machine_run (n : nat) : list Accelerator :=
  map (fun i => {| process_index := i; local_process_index := i;
                   num_processes := n |})
      (seq 0 n).

(** *** Further observations *)

Definition is_forward (e : event) : bool :=
  match e with Forward _ _ _ => true | _ => false end.

Definition is_log_psnr (e : event) : bool :=
  match e with LogPsnr _ => true | _ => false end.

(** What the end of an epoch reports: the PSNR record and the checkpoint. *)
Definition is_report (e : event) : bool := is_log_psnr e || is_save e.

Definition only_forward (e : event) : Prop := is_forward e = true.

(** What training acts on: the two networks and the two optimizers. *)
Definition learned (s : State) : Module_ * Module_ * AdamW G * AdamW D :=
  (net_G s, net_D s, optimizer s, optimizer_D s).

(** The learning rates of the two optimizers. *)
Definition rates (s : State) : pyfloat * pyfloat :=
  (lr (optimizer s), lr (optimizer_D s)).

Definition rates_are (c c' : pyfloat) (s : State) : Prop := rates s = (c, c').

(** A training record, if [e] is one, reports the learning rate [c]. *)
Definition reports_rate (c : pyfloat) (e : event) : Prop :=
  match e with LogTrain _ _ _ _ _ _ l => l = c | _ => True end.

(** The epoch and step numbers a training record displays. *)
Definition position (e : event) : nat * nat :=
  match e with LogTrain ep _ step _ _ _ _ => (ep, step) | _ => (0, 0) end.

(** [m] keeps the invariant [I], only appends events, and each of them
    satisfies [P]. *)
Definition keeps {A : Type} (I : State -> Prop) (P : event -> Prop) (m : M A) : Prop :=
  forall s, I s ->
    I (final (m s)) /\ exists l, events (final (m s)) = events s ++ l /\ Forall P l.

(** The two losses of each step of a run of the inner loop over [its]
    from [s], in order. *)
Fixpoint run_losses (self : Trainer) (ep : nat) (its : list (nat * batch)) (s : State)
  : list (pyfloat * pyfloat) :=
  match its with
  | [] => []
  | it :: rest =>
      step_losses self (snd it) s
        :: run_losses self ep rest (final (train_step self ep it s))
  end.

(** An iteration of the inner loop whose index is not a logging step. *)
Definition quiet (self : Trainer) (it : nat * batch) : Prop :=
  log_due self (fst it) = false.

End Trainer.

Arguments lr {T n} _.
Arguments opt_state {T n} _.

End Train.

(* ================================================================= *)
(** * Stand-in collaborators

    Deterministic stand-ins for the networks and the tensor library, with
    binary64 arithmetic: an image is one pixel, a batch the list of its
    pixels.  They are what concrete runs of the loop are evaluated on. *)

Module Standin.

Import Train.

Definition F (n : Z) : Float64.float := Float64.of_int n.
Definition half : Float64.float := Float64.div (F 1) (F 2).
Definition sub (x y : Float64.float) : Float64.float :=
  SFsub Float64.prec Float64.emax x y.

Definition total (l : list Float64.float) : Float64.float :=
  fold_left Float64.add l (F 0).
Definition scalar (t : list Float64.float) : Float64.float := hd (F 0) t.
Definition mean (l : list Float64.float) : Float64.float :=
  Float64.div_int (total l) (Z.of_nat (length l)).

(** Mean squared error against a broadcast scalar target. *)
Definition mse (pred target : list Float64.float) : list Float64.float :=
  [mean (map (fun p => let d := sub p (scalar target) in Float64.mul d d) pred)].

Definition smooth_l1_elem (x y : Float64.float) : Float64.float :=
  let d := SFabs (sub x y) in
  if SFltb d (F 1) then Float64.mul half (Float64.mul d d) else sub d half.

Definition smooth_l1 (a b : list Float64.float) : list Float64.float :=
  [mean (map (fun xy => smooth_l1_elem (fst xy) (snd xy)) (combine a b))].

#[export] Instance torch : Torch := {|
  tensor := list Float64.float;
  pyfloat := Float64.float;
  weights := Float64.float;
  grads := Float64.float;
  moments := unit;
  py_float := F;
  py_half := half;
  py_add := Float64.add;
  py_div_int := Float64.div_int;
  torch_tensor := fun x => [x];
  item := scalar;
  t_add := fun a b => [Float64.add (scalar a) (scalar b)];
  t_scale := fun x t => map (Float64.mul x) t;
  t_div_int := fun t n => map (fun v => Float64.div_int v n) t;
  t_sum := fun t => [total t];
  stack := @concat Float64.float;
  MSELoss := mse;
  SmoothL1Loss := smooth_l1;
  NAFNet := fun _ w x => map (fun v => Float64.add v w) x;
  Discriminator := fun _ w x => map (fun v => Float64.mul v w) x;
  initial_weights := fun n => match n with G => F (-1) | D => F 1 end;
  grad_loss_G := fun _ _ _ _ _ _ _ => F 1;
  grad_loss_D := fun _ _ _ _ => F 1;
  grads_add := Float64.add;
  initial_moments := tt;
  adamw := fun lr _ w g => (sub w (Float64.mul lr g), tt);
  cal_psnr := fun pred _ _ _ => map (fun _ => F 30) pred;
  shuffled := fun _ l => l;
  all_reduce_sum := fun l => [total (map scalar l)]
|}.

Definition image (n : Z) : list Float64.float := [F n].

(** A sample: watermarked pixel 3, clean pixel 1, synthetic-watermark
    pixel 2. *)
Definition a_sample : sample := (image 3, image 1, image 2).
Definition a_batch : batch := collate [a_sample].

Definition some_args (window : positive) : Args :=
  {| epochs := 2; log_step := window; alpha_arg := F 1; lr_arg := half; bs := 1 |}.

(** Process [rank] of a run; [local] is its rank on its machine. *)
Definition process (rank local world : nat) : Accelerator :=
  {| process_index := rank; local_process_index := local; num_processes := world |}.

(** One process on one machine. *)
Definition alone : Accelerator := process 0 0 1.

(** Two processes on one machine, and two machines with one process each. *)
Definition one_machine : list Accelerator := [process 0 0 2; process 1 1 2].
Definition two_machines : list Accelerator := [process 0 0 2; process 1 0 2].

(** The collective of a run with a single process. *)
Definition no_peers : nat -> tensor -> tensor := fun _ t => t.

Definition reset (s : State) : State := set_loss_sums (F 0) (F 0) s.

(** A run of one process with the default logging window (20), three
    training samples and a batch size of 1. *)
Definition default_run : Trainer * State :=
  Trainer_init (some_args 20) alone [a_sample; a_sample; a_sample] [a_sample].

(** A run of one process with a window of 2 and two steps per epoch. *)
Definition short_run : Trainer * State :=
  Trainer_init (some_args 2) alone [a_sample; a_sample] [a_sample].

(** The state of [short_run] after its first complete step. *)
Definition after_one_step : State :=
  final (train_step (fst short_run) 0 (0%nat, a_batch) (snd short_run)).

(** Two processes on one machine evaluating a test set of three images. *)
Definition two_process_run : list (Trainer * State) :=
  launch (some_args 2) one_machine [a_sample] [a_sample; a_sample; a_sample].

(** What each process of a run over [accs] writes in two epochs. *)
Definition files_written (accs : list Accelerator) : list (list event) :=
  map (fun acc =>
         let ts := Trainer_init (some_args 2) acc [a_sample] [a_sample] in
         filter is_save (events (final (train (fst ts) no_peers (snd ts)))))
      accs.

(** Process 1 of a run of two processes on one machine, with a window of
    20 and two steps per epoch. *)
Definition second_process_run : Trainer * State :=
  Trainer_init (some_args 20) (process 1 1 2) [a_sample; a_sample] [a_sample].

End Standin.

(* ================================================================= *)
(** * Facts about binary64 arithmetic *)

Module Float64Facts.

Import Float64.
Open Scope Z_scope.

(** ** Number of binary digits *)

Lemma digits2_log2 (p : positive) : Zpos (digits2_pos p) = Z.log2 (Zpos p) + 1.
Proof.
  induction p as [p IH | p IH | ]; cbn [digits2_pos].
  - rewrite Pos2Z.inj_succ, IH, Pos2Z.inj_xI, Z.log2_succ_double; lia.
  - rewrite Pos2Z.inj_succ, IH, Pos2Z.inj_xO, Z.log2_double; lia.
  - reflexivity.
Qed.

Lemma Zdigits2_nonneg (m : Z) : 0 <= Zdigits2 m.
Proof. destruct m; simpl; lia. Qed.

Lemma Zdigits2_pos_eq (m : Z) : 0 < m -> Zdigits2 m = Z.log2 m + 1.
Proof. destruct m; try lia. intros _. apply digits2_log2. Qed.

Lemma Zdigits2_le (a b : Z) : 0 <= a <= b -> Zdigits2 a <= Zdigits2 b.
Proof.
  intros [Ha Hab].
  destruct (Z.eq_dec a 0) as [-> | Hne]; [apply Zdigits2_nonneg |].
  rewrite !Zdigits2_pos_eq by lia.
  pose proof (Z.log2_le_mono a b Hab). lia.
Qed.

Lemma Zdigits2_succ (a : Z) : 0 <= a -> Zdigits2 (a + 1) <= Zdigits2 a + 1.
Proof.
  intros Ha. destruct (Z.eq_dec a 0) as [-> | Hne]; [simpl; lia |].
  rewrite !Zdigits2_pos_eq by lia.
  pose proof (Z.log2_succ_le a). unfold Z.succ in *. lia.
Qed.

Lemma Zdigits2_lt_pow2 (a k : Z) : 0 <= a -> 0 <= k -> a < 2 ^ k -> Zdigits2 a <= k.
Proof.
  intros Ha Hk Hlt. destruct (Z.eq_dec a 0) as [-> | Hne]; [simpl; lia |].
  rewrite Zdigits2_pos_eq by lia.
  apply Z.log2_lt_pow2 in Hlt; lia.
Qed.

Lemma Zdigits2_spec (a : Z) : 0 < a -> 2 ^ (Zdigits2 a - 1) <= a < 2 ^ Zdigits2 a.
Proof.
  intros Ha. rewrite Zdigits2_pos_eq by lia.
  replace (Z.log2 a + 1 - 1) with (Z.log2 a) by lia.
  apply (Z.log2_spec a Ha).
Qed.

(** ** Right shifts and rounding *)

Lemma shr_1_digits (mrs : shr_record) :
  0 <= shr_m mrs ->
  0 <= shr_m (shr_1 mrs) /\
  Zdigits2 (shr_m (shr_1 mrs)) <= Z.max 0 (Zdigits2 (shr_m mrs) - 1).
Proof.
  destruct mrs as [m r s]; cbn [shr_m]. intros Hm.
  destruct m as [ | p | p ]; [ | destruct p | lia ];
    cbn [shr_1 shr_m Zdigits2 digits2_pos];
    rewrite ?Pos2Z.inj_succ; lia.
Qed.

Lemma iter_shr_1_digits (p : positive) : forall mrs : shr_record,
  0 <= shr_m mrs ->
  0 <= shr_m (iter_pos shr_1 p mrs) /\
  Zdigits2 (shr_m (iter_pos shr_1 p mrs)) <= Z.max 0 (Zdigits2 (shr_m mrs) - Zpos p).
Proof.
  induction p as [p IH | p IH | ]; intros mrs Hm; cbn [iter_pos].
  - destruct (shr_1_digits mrs Hm) as [H1 H2].
    destruct (IH _ H1) as [H3 H4].
    destruct (IH _ H3) as [H5 H6].
    split; [assumption | lia].
  - destruct (IH _ Hm) as [H3 H4].
    destruct (IH _ H3) as [H5 H6].
    split; [assumption | lia].
  - apply shr_1_digits; assumption.
Qed.

Lemma shr_m_of_loc (m : Z) (l : location) : shr_m (shr_record_of_loc m l) = m.
Proof. destruct l as [ | [ | | ] ]; reflexivity. Qed.

Lemma shr_fexp_digits (m e : Z) (l : location) :
  0 <= m ->
  let r := shr_fexp prec emax m e l in
  0 <= shr_m (fst r) /\
  snd r = Z.max e (fexp prec emax (Zdigits2 m + e)) /\
  Zdigits2 (shr_m (fst r)) + snd r <= Z.max (snd r) (Zdigits2 m + e).
Proof.
  intros Hm r. subst r. unfold shr_fexp, shr.
  destruct (fexp prec emax (Zdigits2 m + e) - e) as [ | n | n ] eqn:Hn;
    cbn [fst snd]; rewrite ?shr_m_of_loc.
  - repeat split; lia.
  - destruct (iter_shr_1_digits n (shr_record_of_loc m l)) as [H1 H2];
      rewrite ?shr_m_of_loc in *; try assumption.
    repeat split; lia.
  - repeat split; lia.
Qed.

Lemma round_nearest_even_bounds (m : Z) (l : location) :
  m <= round_nearest_even m l <= m + 1.
Proof.
  destruct l as [ | [ | | ] ]; cbn [round_nearest_even]; try lia.
  destruct (Z.even m); lia.
Qed.

Lemma bounded_float_weaken (s : bool) (E Mg E' Mg' : Z) (x : float) :
  bounded_float s E Mg x -> E <= E' -> Mg <= Mg' -> bounded_float s E' Mg' x.
Proof.
  intros [-> | (m & e & -> & H1 & H2)] HE HM; [left; reflexivity |].
  right. exists m, e. repeat split; lia.
Qed.

(** Rounding a non-negative mantissa neither overflows nor yields a NaN
    while the number stays below [2^1023]. *)
Lemma binary_round_aux_bounded (s : bool) (mx ex : Z) (lx : location) :
  0 <= mx -> ex <= 971 -> Zdigits2 mx + ex <= 1023 ->
  bounded_float s (Z.max ex (Z.max (Zdigits2 mx + ex - 52) (-1074)))
                  (Z.max (Z.max ex (-1074)) (Zdigits2 mx + ex) + 1)
                (binary_round_aux prec emax s mx ex lx).
Proof.
  intros Hm He Hd. unfold binary_round_aux.
  pose proof (shr_fexp_digits mx ex lx Hm) as H1. cbv zeta in H1.
  destruct (shr_fexp prec emax mx ex lx) as [mrs' e'] eqn:E1. cbn [fst snd] in H1.
  destruct H1 as (H1a & H1b & H1c).
  pose proof (round_nearest_even_bounds (shr_m mrs') (loc_of_shr_record mrs')) as Hr.
  set (mx' := round_nearest_even (shr_m mrs') (loc_of_shr_record mrs')) in *.
  assert (Hm' : 0 <= mx') by lia.
  assert (Hd' : Zdigits2 mx' <= Zdigits2 (shr_m mrs') + 1).
  { etransitivity; [apply Zdigits2_le; split; [exact Hm' | apply Hr] |].
    apply Zdigits2_succ; assumption. }
  pose proof (shr_fexp_digits mx' e' loc_Exact Hm') as H2. cbv zeta in H2.
  destruct (shr_fexp prec emax mx' e' loc_Exact) as [mrs'' e''] eqn:E2.
  cbn [fst snd] in H2. destruct H2 as (H2a & H2b & H2c).
  unfold fexp, emin, prec, emax in *.
  destruct (shr_m mrs'') as [ | m | m ] eqn:Em.
  - left; reflexivity.
  - assert (He'' : e'' <= 1024 - 53) by lia.
    apply Z.leb_le in He''. rewrite He''.
    right. exists m, e''. cbn [Zdigits2] in H2c. repeat split; lia.
  - lia.
Qed.

(** ** Integers as floats *)

Lemma iter_xO_spec (d m : positive) :
  Zpos (Pos.iter xO m d) = Zpos m * 2 ^ Zpos d /\
  Zpos (digits2_pos (Pos.iter xO m d)) = Zpos (digits2_pos m) + Zpos d.
Proof.
  induction d as [ | d [IH1 IH2] ] using Pos.peano_ind.
  - cbn [Pos.iter digits2_pos]. rewrite Pos2Z.inj_xO, Pos2Z.inj_succ. lia.
  - rewrite Pos.iter_succ. cbn [digits2_pos].
    rewrite Pos2Z.inj_xO, !Pos2Z.inj_succ, IH1, IH2, Z.pow_succ_r by lia. lia.
Qed.

Lemma shl_align_spec (mx : positive) (ex ex' : Z) :
  ex' <= ex ->
  let r := shl_align mx ex ex' in
  snd r = ex' /\
  Zpos (fst r) = Zpos mx * 2 ^ (ex - ex') /\
  Zpos (digits2_pos (fst r)) = Zpos (digits2_pos mx) + (ex - ex').
Proof.
  intros Hle r. subst r. unfold shl_align.
  destruct (ex' - ex) as [ | d | d ] eqn:Hd; cbn [fst snd].
  - replace (ex - ex') with 0 by lia. rewrite Z.pow_0_r. lia.
  - lia.
  - destruct (iter_xO_spec d mx) as [H1 H2].
    replace (ex - ex') with (Zpos d) by lia. lia.
Qed.

(** A mantissa of 53 bits with an exponent in range is already rounded. *)
Lemma binary_round_aux_canonical (s : bool) (m : positive) (e : Z) :
  digits2_pos m = 53%positive -> -1074 <= e <= 971 ->
  binary_round_aux prec emax s (Zpos m) e loc_Exact = S754_finite s m e.
Proof.
  intros Hd He. unfold binary_round_aux, shr_fexp.
  cbn [Zdigits2]. rewrite Hd.
  assert (H0 : fexp prec emax (53 + e) - e = 0)
    by (unfold fexp, emin, prec, emax; lia).
  rewrite H0.
  cbn [shr shr_record_of_loc shr_m loc_of_shr_record round_nearest_even Zdigits2].
  rewrite Hd, H0. cbn [shr shr_record_of_loc shr_m].
  assert (H1 : (e <=? emax - prec) = true)
    by (apply Z.leb_le; unfold prec, emax; lia).
  rewrite H1. reflexivity.
Qed.

(** [float(n)] is exact for [0 < n < 2^53]: the normalised mantissa and
    exponent of [n]. *)
Lemma of_int_normal (n : Z) :
  0 < n < 2 ^ 53 ->
  exists m e, of_int n = S754_finite false m e /\
              digits2_pos m = 53%positive /\ -52 <= e <= 0 /\
              Zpos m = n * 2 ^ (- e).
Proof.
  intros [Hn Hlt]. destruct n as [ | p | p ]; try lia.
  unfold of_int, binary_normalize, binary_round.
  assert (Hd : 1 <= Zpos (digits2_pos p) <= 53).
  { split; [lia |]. apply (Zdigits2_lt_pow2 (Zpos p)); lia. }
  assert (Hf : fexp prec emax (Zpos (digits2_pos p) + 0) = Zpos (digits2_pos p) - 53)
    by (unfold fexp, emin, prec, emax; lia).
  rewrite Hf.
  pose proof (shl_align_spec p 0 (Zpos (digits2_pos p) - 53)) as H. cbv zeta in H.
  destruct (shl_align p 0 (Zpos (digits2_pos p) - 53)) as [mz ez]. cbn [fst snd] in H.
  destruct H as (-> & H2 & H3); [lia |].
  assert (Hdz : digits2_pos mz = 53%positive) by lia.
  rewrite binary_round_aux_canonical by (assumption || lia).
  exists mz, (Zpos (digits2_pos p) - 53). repeat split; try lia.
  rewrite H2. reflexivity.
Qed.

(** [int(float(n)) = n] *)
Lemma int_of_float_of_int (n : Z) :
  0 <= n < 2 ^ 53 -> int_of_float (of_int n) = Some n.
Proof.
  intros [Hn Hlt]. destruct (Z.eq_dec n 0) as [-> | Hne]; [reflexivity |].
  destruct (of_int_normal n) as (m & e & -> & Hd & He & Hm); [lia |].
  cbn [int_of_float cond_Zopp]. f_equal.
  rewrite Z.shiftl_div_pow2, Hm by lia.
  apply Z.div_mul. apply Z.pow_nonzero; lia.
Qed.

(** ** Division and multiplication stay finite *)

Lemma div_core_bounds (mx my : positive) (ex ey : Z) :
  digits2_pos mx = 53%positive -> digits2_pos my = 53%positive ->
  -52 <= ex <= 0 -> -52 <= ey <= 0 ->
  let r := SFdiv_core_binary prec emax (Zpos mx) ex (Zpos my) ey in
  0 <= fst (fst r) /\ snd (fst r) = ex - ey - 53 /\ Zdigits2 (fst (fst r)) <= 54.
Proof.
  intros Hdx Hdy Hex Hey r. subst r. unfold SFdiv_core_binary.
  cbn [Zdigits2]. rewrite Hdx, Hdy.
  assert (He' : Z.min (fexp prec emax (53 + ex - (53 + ey))) (ex - ey) = ex - ey - 53)
    by (unfold fexp, emin, prec, emax; lia).
  rewrite He'.
  replace (ex - ey - (ex - ey - 53)) with 53 by lia.
  assert (Hq : Z.div_eucl (Z.shiftl (Zpos mx) 53) (Zpos my)
               = (Z.shiftl (Zpos mx) 53 / Zpos my, Z.shiftl (Zpos mx) 53 mod Zpos my)).
  { unfold Z.div, Z.modulo. destruct (Z.div_eucl _ _); reflexivity. }
  rewrite Hq. cbn [fst snd].
  rewrite Z.shiftl_mul_pow2 by lia.
  pose proof (Zdigits2_spec (Zpos mx) ltac:(lia)) as Hx.
  pose proof (Zdigits2_spec (Zpos my) ltac:(lia)) as Hy.
  cbn [Zdigits2] in Hx, Hy. rewrite Hdx in Hx. rewrite Hdy in Hy.
  assert (H0 : 0 <= Zpos mx * 2 ^ 53 / Zpos my) by (apply Z.div_pos; lia).
  repeat split; try assumption.
  apply Zdigits2_lt_pow2; try lia.
  apply Z.div_lt_upper_bound; lia.
Qed.

Lemma div_bounded (mx my : positive) (ex ey : Z) :
  digits2_pos mx = 53%positive -> digits2_pos my = 53%positive ->
  -52 <= ex <= 0 -> -52 <= ey <= 0 ->
  bounded_float false 1 54 (div (S754_finite false mx ex) (S754_finite false my ey)).
Proof.
  intros Hdx Hdy Hex Hey. unfold div, SFdiv.
  pose proof (div_core_bounds mx my ex ey Hdx Hdy Hex Hey) as H. cbv zeta in H.
  destruct (SFdiv_core_binary prec emax (Zpos mx) ex (Zpos my) ey) as [[mz ez] lz].
  cbn [fst snd] in H. destruct H as (H1 & -> & H3). cbn [xorb].
  eapply bounded_float_weaken; [apply binary_round_aux_bounded | |]; lia.
Qed.

Lemma mul_bounded (mx my : positive) (ex ey : Z) :
  ex <= 1 -> Zpos (digits2_pos mx) + ex <= 54 ->
  digits2_pos my = 53%positive -> -52 <= ey <= 0 ->
  bounded_float false 56 108 (mul (S754_finite false mx ex) (S754_finite false my ey)).
Proof.
  intros Hex Hmx Hdy Hey. unfold mul, SFmul. cbn [xorb].
  assert (Hd : Zdigits2 (Zpos (mx * my))
               <= Zpos (digits2_pos mx) + Zpos (digits2_pos my)).
  { cbn [Zdigits2]. rewrite !digits2_log2, Pos2Z.inj_mul.
    pose proof (Z.log2_mul_above (Zpos mx) (Zpos my)). lia. }
  eapply bounded_float_weaken; [apply binary_round_aux_bounded | |]; lia.
Qed.

Lemma bounded_float_int (E Mg : Z) (x : float) :
  bounded_float false E Mg x ->
  exists z, int_of_float x = Some z /\ floor x = Some z /\ 0 <= z.
Proof.
  intros [-> | (m & e & -> & _ & _)].
  - exists 0. cbn. repeat split; lia.
  - exists (Z.shiftl (Zpos m) e). cbn [int_of_float floor cond_Zopp].
    repeat split. apply Z.shiftl_nonneg. lia.
Qed.

(** [(h/w)*S] never overflows on image dimensions: [int] returns, and
    returns the value rounded down. *)
Lemma scaled_value_rounds_down (h w0 S : Z) :
  0 <= h < 2 ^ 53 -> 0 < w0 < 2 ^ 53 -> 0 < S < 2 ^ 53 ->
  exists q hs,
    int_true_div h w0 = Some q /\
    int_of_float (mul q (of_int S)) = Some hs /\
    floor (mul q (of_int S)) = Some hs /\ 0 <= hs.
Proof.
  intros Hh Hw HS. unfold int_true_div.
  assert (Hw0 : (w0 =? 0) = false) by (apply Z.eqb_neq; lia). rewrite Hw0.
  destruct (of_int_normal w0 Hw) as (mw & ew & Ew & Hdw & Hew & _).
  destruct (of_int_normal S HS) as (ms & es & Es & Hds & Hes & _).
  exists (div (of_int h) (of_int w0)). rewrite Ew, Es.
  assert (Hq : bounded_float false 1 54 (div (of_int h) (S754_finite false mw ew))).
  { destruct (Z.eq_dec h 0) as [-> | Hne].
    - left. reflexivity.
    - destruct (of_int_normal h) as (mh & eh & -> & Hdh & Heh & _); [lia |].
      apply div_bounded; assumption. }
  destruct Hq as [-> | (mq & eq & -> & Heq & Hmq)].
  - exists 0. cbn. repeat split; lia.
  - destruct (bounded_float_int _ _ _ (mul_bounded mq ms eq es Heq Hmq Hds Hes))
      as (z & H1 & H2 & H3).
    exists z. repeat split; assumption.
Qed.

(** ** Exact results *)

Lemma div_same (m : positive) (e : Z) :
  digits2_pos m = 53%positive ->
  div (S754_finite false m e) (S754_finite false m e) = of_int 1.
Proof.
  intros Hd. unfold div, SFdiv, SFdiv_core_binary.
  cbn [Zdigits2]. rewrite Hd.
  replace (53 + e - (53 + e)) with 0 by lia.
  replace (e - e) with 0 by lia.
  change (Z.min (fexp prec emax 0) 0) with (-53).
  change (0 - -53) with 53.
  assert (Hq : Z.div_eucl (Z.shiftl (Zpos m) 53) (Zpos m) = (2 ^ 53, 0)).
  { rewrite Z.shiftl_mul_pow2 by lia.
    replace (Z.div_eucl (Zpos m * 2 ^ 53) (Zpos m))
      with (Zpos m * 2 ^ 53 / Zpos m, (Zpos m * 2 ^ 53) mod Zpos m)
      by (unfold Z.div, Z.modulo; destruct (Z.div_eucl _ _); reflexivity).
    rewrite Z.mul_comm, Z.div_mul, Z.mod_mul by lia. reflexivity. }
  change (IntDef.Z.div_eucl _ (Z.pos m))
    with (Z.div_eucl (Z.shiftl (Z.pos m) 53) (Z.pos m)).
  rewrite Hq.
  assert (Hl : new_location (Zpos m) 0 = loc_Exact).
  { unfold new_location, new_location_even, new_location_odd.
    destruct (Z.even (Zpos m)); reflexivity. }
  rewrite Hl. vm_compute. reflexivity.
Qed.

Lemma mul_one_l (m : positive) (e : Z) :
  digits2_pos m = 53%positive -> -52 <= e <= 0 ->
  mul (of_int 1) (S754_finite false m e) = S754_finite false m e.
Proof.
  intros Hd He.
  change (of_int 1) with (S754_finite false 4503599627370496 (-52)).
  unfold mul, SFmul. cbn [xorb].
  unfold binary_round_aux, shr_fexp.
  assert (Hm : (4503599627370496 * m)%positive = Pos.iter xO m 52) by reflexivity.
  rewrite Hm.
  destruct (iter_xO_spec 52 m) as [H1 H2].
  cbn [Zdigits2]. rewrite H2, Hd.
  assert (Hs : fexp prec emax (53 + 52 + (-52 + e)) - (-52 + e) = 52)
    by (unfold fexp, emin, prec, emax; lia).
  rewrite Hs.
  assert (Hshr : shr (shr_record_of_loc (Z.pos (Pos.iter xO m 52)) loc_Exact) (-52 + e) 52
                 = ({| shr_m := Zpos m; shr_r := false; shr_s := false |}, e)).
  { unfold shr. f_equal; try reflexivity; lia. }
  rewrite Hshr.
  cbn [shr_m loc_of_shr_record round_nearest_even Zdigits2]. rewrite Hd.
  assert (H0 : fexp prec emax (53 + e) - e = 0)
    by (unfold fexp, emin, prec, emax; lia).
  rewrite H0. cbn [shr shr_record_of_loc shr_m].
  assert (Hle : (e <=? emax - prec) = true)
    by (apply Z.leb_le; unfold prec, emax; lia).
  rewrite Hle. reflexivity.
Qed.

End Float64Facts.

(* ================================================================= *)
(** * Facts about [PadResize] *)

Module TransFacts.

Import Float64 Float64Facts Trans.
Open Scope Z_scope.

Lemma pow2_31_53 : 2 ^ 31 < 2 ^ 53.
Proof. apply Z.pow_lt_mono_r; lia. Qed.

Lemma well_sized_bounds (img : Image) :
  well_sized img -> 0 <= height img < 2 ^ 53 /\ 0 < width img < 2 ^ 53.
Proof. unfold well_sized. intros [H1 H2]. pose proof pow2_31_53. lia. Qed.

Lemma scaled_height_total (h w0 S : Z) :
  0 <= h < 2 ^ 53 -> 0 < w0 < 2 ^ 53 -> 0 < S < 2 ^ 53 ->
  exists hs, scaled_height h w0 S = Some hs /\ 0 <= hs.
Proof.
  intros Hh Hw HS.
  destruct (scaled_value_rounds_down _ _ _ Hh Hw HS) as (q & hs & H1 & H2 & _ & H4).
  exists hs. unfold scaled_height. rewrite H1, H2. split; [reflexivity | assumption].
Qed.

Lemma scaled_height_square (S : Z) : 0 < S < 2 ^ 53 -> scaled_height S S S = Some S.
Proof.
  intros HS. unfold scaled_height, int_true_div.
  assert (H0 : (S =? 0) = false) by (apply Z.eqb_neq; lia). rewrite H0.
  destruct (of_int_normal S HS) as (m & e & E & Hd & He & Hm).
  rewrite <- (int_of_float_of_int S) by lia.
  rewrite E, div_same, mul_one_l by assumption. reflexivity.
Qed.

Lemma size_width_height (img : Image) : size img = (width img, height img).
Proof. unfold width, height. destruct (size img); reflexivity. Qed.

(** [F.resize] accepts a request of at least one row and one column. *)
Lemma F_resize_accepts (img : Image) (h w0 : Z) (i : InterpolationMode) (a : bool) :
  1 <= h -> 1 <= w0 -> F_resize img (h, w0) i a = Some (Resized img h w0 i a).
Proof.
  intros Hh Hw. unfold F_resize. cbn [fst snd].
  assert (H1 : (h <? 1) = false) by (apply Z.ltb_ge; lia).
  assert (H2 : (w0 <? 1) = false) by (apply Z.ltb_ge; lia).
  rewrite H1, H2. reflexivity.
Qed.

Lemma call_unfold (self : PadResize) (img : Image) (hs : Z) :
  scaled_height (height img) (width img) (w self) = Some hs ->
  1 <= hs -> 1 <= w self ->
  call self img =
    Some (if make_pad self && (hs <? w self)
          then F_pad (Resized img hs (w self) (interpolation self) false)
                     0 (h_pad (w self) hs) 0 (bottom_pad (w self) hs)
          else Resized img hs (w self) (interpolation self) false).
Proof.
  intros H Hhs HS. unfold call.
  rewrite (size_width_height img), H, F_resize_accepts by assumption.
  destruct (make_pad self && (hs <? w self)); reflexivity.
Qed.

(** A scaled height below 1 makes [F.resize] raise, and [__call__] with
    it. *)
Lemma call_refused (self : PadResize) (img : Image) (hs : Z) :
  scaled_height (height img) (width img) (w self) = Some hs ->
  hs < 1 -> call self img = None.
Proof.
  intros H Hhs. unfold call, F_resize.
  rewrite (size_width_height img), H. cbn [fst snd].
  assert (H1 : (hs <? 1) = true) by (apply Z.ltb_lt; lia).
  rewrite H1. reflexivity.
Qed.







(** C7 as stated fails: an 800x400 image has the width of the target 800,
    and comes back padded to 800x800; an 800x803 image, with padding
    disabled, comes back 800x802, because [(803/800)*800] is just below
    803 in binary64. *)
Lemma PadResize_same_width_counterexample :
  width (Opened 800 400) = w (PadResize_init 800) /\
  call (PadResize_init 800) (Opened 800 400)
    = Some (Padded (Resized (Opened 800 400) 400 800 BILINEAR false) 0 200 0 200) /\
  size (Padded (Resized (Opened 800 400) 400 800 BILINEAR false) 0 200 0 200)
    <> size (Opened 800 400) /\
  call {| w := 800; interpolation := BILINEAR; make_pad := false |} (Opened 800 803)
    = Some (Resized (Opened 800 803) 802 800 BILINEAR false) /\
  size (Resized (Opened 800 803) 802 800 BILINEAR false) <> size (Opened 800 803).
Proof.
  split; [reflexivity |]. split; [vm_compute; reflexivity |].
  split; [vm_compute; discriminate |].
  split; [vm_compute; reflexivity |].
  vm_compute; discriminate.
Qed.

(** C7, amended.  For an image whose width and height both equal the
    target size [S], [__call__] returns an image of the same size and
    applies no padding. *)
Theorem PadResize_square_input (self : PadResize) (img : Image) :
  size img = (w self, w self) -> 0 < w self < 2 ^ 53 ->
  exists out,
    call self img = Some out /\ size out = size img /\ is_padded out = false.
Proof.
  intros Hsz HS.
  exists (Resized img (w self) (w self) (interpolation self) false).
  assert (Hs : scaled_height (height img) (width img) (w self) = Some (w self)).
  { unfold height, width. rewrite Hsz. cbn [fst snd]. apply scaled_height_square, HS. }
  rewrite (call_unfold self img _ Hs) by lia.
  rewrite Z.ltb_irrefl, andb_false_r, Hsz.
  repeat split.
Qed.

Lemma PadResize_square_input_witness :
  size (Opened 800 800) = (w (PadResize_init 800), w (PadResize_init 800)) /\
  0 < w (PadResize_init 800) < 2 ^ 53 /\
  exists out,
    call (PadResize_init 800) (Opened 800 800) = Some out /\
    size out = size (Opened 800 800) /\ is_padded out = false.
Proof.
  assert (H1 : size (Opened 800 800) = (w (PadResize_init 800), w (PadResize_init 800)))
    by reflexivity.
  assert (H2 : 0 < w (PadResize_init 800) < 2 ^ 53) by (cbn; lia).
  split; [exact H1 | split; [exact H2 |]].
  exact (PadResize_square_input (PadResize_init 800) (Opened 800 800) H1 H2).
Defined.

End TransFacts.

(* ================================================================= *)
(** * Facts about [Trainer] *)

Module TrainFacts.

Import Train.

Section Facts.

Context {T : Torch}.

(** ** Lists *)

Lemma skipn_length_app {A : Type} (l l' : list A) :
  skipn (length l) (l ++ l') = l'.
Proof. induction l as [ | x l IH]; [reflexivity | exact IH]. Qed.

Lemma combine_app_same {A B : Type} (l1 l2 : list A) (k1 k2 : list B) :
  length l1 = length k1 ->
  combine (l1 ++ l2) (k1 ++ k2) = combine l1 k1 ++ combine l2 k2.
Proof.
  revert k1. induction l1 as [ | x l1 IH]; intros [ | y k1] H; try discriminate.
  - reflexivity.
  - cbn. f_equal. apply IH. injection H as H. exact H.
Qed.


Lemma filter_none {A : Type} (f : A -> bool) (l : list A) :
  Forall (fun x => f x = false) l -> filter f l = [].
Proof.
  induction 1 as [ | x l Hx _ IH]; [reflexivity |]. cbn. rewrite Hx. exact IH.
Qed.

(** ** Running computations *)

Lemma final_bind {A B : Type} (m : M A) (f : A -> M B) (s : State) :
  final (bind m f s) = final (f (value (m s)) (final (m s))).
Proof.
  unfold bind, final, value. destruct (m s) as [[a s1] t1]. cbn.
  destruct (f a s1) as [[b s2] t2]. reflexivity.
Qed.

Lemma value_bind {A B : Type} (m : M A) (f : A -> M B) (s : State) :
  value (bind m f s) = value (f (value (m s)) (final (m s))).
Proof.
  unfold bind, final, value. destruct (m s) as [[a s1] t1]. cbn.
  destruct (f a s1) as [[b s2] t2]. reflexivity.
Qed.

Lemma final_for_each_app {A : Type} (f : A -> M unit) (l1 l2 : list A) (s : State) :
  final (for_each f (l1 ++ l2) s) = final (for_each f l2 (final (for_each f l1 s))).
Proof.
  revert s. induction l1 as [ | x l1 IH]; intros s; [reflexivity |].
  cbn [app for_each]. rewrite !final_bind. apply IH.
Qed.

Lemma final_for_each_one {A : Type} (f : A -> M unit) (x : A) (s : State) :
  final (for_each f [x] s) = final (f x s).
Proof. cbn [for_each]. rewrite final_bind. reflexivity. Qed.

(** ** What a computation emits *)

Lemma appends_emitted {A : Type} (P : event -> Prop) (m : M A) (s : State) :
  appends P m ->
  events (final (m s)) = events s ++ emitted m s /\ Forall P (emitted m s).
Proof.
  intros H. destruct (H s) as (l & E & Hl). unfold emitted.
  rewrite E, skipn_length_app. split; [reflexivity | assumption].
Qed.

Lemma appends_weaken {A : Type} (P Q : event -> Prop) (m : M A) :
  (forall e, P e -> Q e) -> appends P m -> appends Q m.
Proof.
  intros HPQ H s. destruct (H s) as (l & E & Hl). exists l. split; [assumption |].
  eapply Forall_impl; eassumption.
Qed.

Lemma appends_anything {A : Type} (P : event -> Prop) (m : M A) :
  appends P m -> appends anything m.
Proof. apply appends_weaken. intros e _. exact I. Qed.

Lemma appends_ret {A : Type} (P : event -> Prop) (a : A) : appends P (ret a).
Proof.
  intros s. exists []. cbn. rewrite app_nil_r. split; [reflexivity | constructor].
Qed.

Lemma appends_bind {A B : Type} (P : event -> Prop) (m : M A) (f : A -> M B) :
  appends P m -> (forall a, appends P (f a)) -> appends P (bind m f).
Proof.
  intros Hm Hf s. rewrite final_bind.
  destruct (Hm s) as (l1 & E1 & H1).
  destruct (Hf (value (m s)) (final (m s))) as (l2 & E2 & H2).
  exists (l1 ++ l2). rewrite E2, E1, app_assoc.
  split; [reflexivity | apply Forall_app; split; assumption].
Qed.

Lemma appends_stmt (P : event -> Prop) (f : State -> State) :
  silent f -> appends P (stmt f).
Proof.
  intros Hf s. exists []. cbn. rewrite Hf, app_nil_r.
  split; [reflexivity | constructor].
Qed.

Lemma appends_emit (P : event -> Prop) (e : State -> event) :
  (forall s, P (e s)) -> appends P (stmt (fun s => emit (e s) s)).
Proof.
  intros He s. exists [e s]. cbn. split; [reflexivity |].
  constructor; [apply He | constructor].
Qed.

Lemma appends_forward (P : event -> Prop) (n : Net) (x : tensor) :
  (forall b, P (Forward n b x)) -> appends P (forward n x).
Proof.
  intros He s. exists [Forward n (training (get_net n s)) x]. cbn.
  split; [reflexivity |]. constructor; [apply He | constructor].
Qed.

Lemma appends_for_each {A : Type} (P : event -> Prop) (f : A -> M unit) (l : list A) :
  (forall x, appends P (f x)) -> appends P (for_each f l).
Proof.
  intros Hf. induction l as [ | x l IH]; cbn [for_each].
  - apply appends_ret.
  - apply appends_bind; [apply Hf | intros _; exact IH].
Qed.

Lemma emitted_bind {A B : Type} (P : event -> Prop) (m : M A) (f : A -> M B)
      (s : State) :
  appends P m -> (forall a, appends P (f a)) ->
  emitted (bind m f) s = emitted m s ++ emitted (f (value (m s))) (final (m s)).
Proof.
  intros Hm Hf.
  destruct (appends_emitted P m s Hm) as [E1 _].
  destruct (appends_emitted P (f (value (m s))) (final (m s)) (Hf _)) as [E2 _].
  unfold emitted at 1. rewrite final_bind, E2, E1, <- app_assoc.
  apply skipn_length_app.
Qed.

Lemma emitted_for_each_app {A : Type} (P : event -> Prop) (f : A -> M unit)
      (l1 l2 : list A) (s : State) :
  (forall x, appends P (f x)) ->
  emitted (for_each f (l1 ++ l2)) s
    = emitted (for_each f l1) s ++ emitted (for_each f l2) (final (for_each f l1 s)).
Proof.
  intros Hf.
  destruct (appends_emitted P _ s (appends_for_each P f l1 Hf)) as [E1 _].
  destruct (appends_emitted P _ (final (for_each f l1 s))
                            (appends_for_each P f l2 Hf)) as [E2 _].
  unfold emitted at 1. rewrite final_for_each_app, E2, E1, <- app_assoc.
  apply skipn_length_app.
Qed.

Lemma emitted_for_each_one {A : Type} (f : A -> M unit) (x : A) (s : State) :
  emitted (for_each f [x]) s = emitted (f x) s.
Proof. unfold emitted. rewrite final_for_each_one. reflexivity. Qed.

(** *** The statements of the trainer *)

Lemma silent_upd_net (n : Net) (f : Module_ -> Module_) : silent (upd_net n f).
Proof. intros s. destruct n; reflexivity. Qed.

Lemma appends_optimizer_step (P : event -> Prop) (n : Net) (opt : State -> AdamW n)
      (store : AdamW n -> State -> State) :
  (forall o s, events (store o s) = events s) ->
  appends P (optimizer_step opt store).
Proof.
  intros Hs. apply appends_stmt. intros s. cbv zeta.
  destruct (grad (get_net n s)); [ | reflexivity].
  rewrite Hs. destruct n; reflexivity.
Qed.

Lemma appends_logger_info (P : event -> Prop) (self : Trainer) (e : State -> event) :
  (forall s, P (e s)) -> appends P (logger_info self e).
Proof.
  intros He. unfold logger_info.
  destruct (is_local_main_process (accelerator self));
    [apply appends_emit; assumption | apply appends_ret].
Qed.

Ltac appends_steps :=
  repeat first
    [ apply appends_ret
    | apply appends_bind; [ | intros ? ]
    | apply appends_stmt; first [ apply silent_upd_net | intros ?; reflexivity ]
    | apply appends_optimizer_step; intros ? ?; reflexivity
    | apply appends_forward; intros ?
    | apply appends_logger_info; intros ? ].

Lemma appends_generator_phase (self : Trainer) (img img_clean fake_mark : tensor) :
  appends not_save (generator_phase self img img_clean fake_mark).
Proof.
  unfold generator_phase, module_train, module_eval, module_requires_grad_,
    zero_grad, accelerator_backward.
  appends_steps; reflexivity.
Qed.

Lemma appends_discriminator_phase (self : Trainer) (img img_clean fake_A : tensor) :
  appends not_save (discriminator_phase self img img_clean fake_A).
Proof.
  unfold discriminator_phase, module_train, module_eval, module_requires_grad_,
    zero_grad, accelerator_backward.
  appends_steps; reflexivity.
Qed.

Lemma appends_logging (self : Trainer) (ep step : nat) :
  appends not_save (logging self ep step).
Proof. unfold logging. destruct (log_due self step); appends_steps; reflexivity. Qed.

Lemma appends_train_step (self : Trainer) (ep : nat) (it : nat * batch) :
  appends not_save (train_step self ep it).
Proof.
  destruct it as [step [[img img_clean] fake_mark]]. unfold train_step.
  apply appends_bind; [apply appends_generator_phase | intros r].
  apply appends_bind; [apply appends_discriminator_phase | intros _].
  apply appends_logging.
Qed.

Lemma appends_test_loop (mean std : tensor) (l : list batch) :
  forall psnr, appends not_save (test_loop mean std psnr l).
Proof.
  induction l as [ | [[img img_clean] img_mask] l IH]; intros psnr; cbn [test_loop].
  - apply appends_ret.
  - apply appends_bind; [apply appends_forward; intros ?; reflexivity | intros pred].
    apply IH.
Qed.

Lemma appends_test (self : Trainer) (reduce : tensor -> tensor) (ep : nat) :
  appends not_save (test self reduce ep).
Proof.
  unfold test, test_mean, test_local, module_eval.
  apply appends_bind; [ | intros v; apply appends_logger_info; intros ?; reflexivity].
  apply appends_bind; [ | intros p; apply appends_ret].
  apply appends_bind; [apply appends_stmt, silent_upd_net | intros _].
  apply appends_test_loop.
Qed.

Lemma appends_epoch_steps (self : Trainer) (ep : nat) :
  appends not_save (epoch_steps self ep).
Proof. apply appends_for_each. intros it. apply appends_train_step. Qed.

Lemma appends_save_checkpoint (self : Trainer) (ep : nat) :
  appends anything (save_checkpoint self ep).
Proof.
  unfold save_checkpoint. destruct (is_local_main_process (accelerator self)).
  - apply (appends_emit anything
             (fun s => Save (checkpoint_path ep) (state_dict (net_G s)))).
    intros s. exact I.
  - apply appends_ret.
Qed.

Lemma appends_epoch (self : Trainer) (reduce : nat -> tensor -> tensor) (ep : nat) :
  appends anything (epoch self reduce ep).
Proof.
  unfold epoch.
  apply appends_bind;
    [apply (appends_anything _ _ (appends_epoch_steps self ep)) | intros _].
  apply appends_bind;
    [apply (appends_anything _ _ (appends_test self (reduce ep) ep)) | intros _].
  apply appends_save_checkpoint.
Qed.

(** ** The two phases of a step *)

Lemma generator_phase_events (self : Trainer) (img img_clean fake_mark : tensor)
      (s : State) :
  emitted (generator_phase self img img_clean fake_mark) s
    = [Forward G true img; Forward G true fake_mark;
       Forward D false (NAFNet true (state_dict (net_G s)) img)].
Proof. unfold emitted. cbn. rewrite <- !app_assoc. apply skipn_length_app. Qed.

Lemma discriminator_phase_events (self : Trainer) (img img_clean fake_A : tensor)
      (s : State) :
  emitted (discriminator_phase self img img_clean fake_A) s
    = [Forward D true img_clean; Forward D true img; Forward D true fake_A].
Proof. unfold emitted. cbn. rewrite <- !app_assoc. apply skipn_length_app. Qed.

(** C1.  In the Generator Phase the loss is
    [adversarial_loss(pred_fake_A, REAL_LABEL) + alpha *
    reconstruction_loss(clean_reference, fake_B)], where [fake_A] and
    [fake_B] are the generator's outputs (in train mode) on the real
    watermarked input and on the synthetic-watermark input, and
    [pred_fake_A] is the score of the discriminator (in eval mode) on
    [fake_A]; the only forward pass of the discriminator in the phase is
    the one on [fake_A]; the loss is what the generator's running sum
    receives. *)
Theorem generator_loss_composition (self : Trainer)
        (img img_clean fake_mark : tensor) (s : State) :
  let wG := state_dict (net_G s) in
  let wD := state_dict (net_D s) in
  let fake_A := NAFNet true wG img in
  let fake_B := NAFNet true wG fake_mark in
  let pred_fake_A := Discriminator false wD fake_A in
  let loss_G := t_add (MSELoss pred_fake_A valid)
                      (t_scale (alpha self) (SmoothL1Loss img_clean fake_B)) in
  let r := generator_phase self img img_clean fake_mark s in
  value r = (fake_A, loss_G) /\
  emitted (generator_phase self img img_clean fake_mark) s
    = [Forward G true img; Forward G true fake_mark; Forward D false fake_A] /\
  filter (is_forward_of D) (emitted (generator_phase self img img_clean fake_mark) s)
    = [Forward D false fake_A] /\
  loss_sum_G (final r) = py_add (loss_sum_G s) (item loss_G).
Proof.
  cbv zeta.
  pose proof (generator_phase_events self img img_clean fake_mark s) as E.
  split; [vm_compute; reflexivity |]. split; [exact E |].
  split; [rewrite E; reflexivity | vm_compute; reflexivity].
Qed.

(** C2.  In the Discriminator Phase the loss is
    [(adversarial_loss(pred_real, REAL) + adversarial_loss(pred_fake_from_G,
    FAKE) + adversarial_loss(pred_real_input, FAKE)) / 2]: the three scores
    are the discriminator's (in train mode) on the clean reference batch,
    on the [fake_A] the Generator Phase computed, and on the real
    watermarked input; [fake_A] enters detached, so the loss has no
    gradient for the generator and the generator's gradient is left as
    it was; the sum of the three terms is divided by 2. *)
Theorem discriminator_loss_composition (self : Trainer)
        (img img_clean fake_mark : tensor) (s : State) :
  let rG := generator_phase self img img_clean fake_mark s in
  let fake_A := fst (value rG) in
  let s1 := final rG in
  let wD := state_dict (net_D s1) in
  let pred_real := Discriminator true wD img_clean in
  let pred_real_input := Discriminator true wD img in
  let pred_fake_from_G := Discriminator true wD fake_A in
  let loss_D := t_div_int (t_add (t_add (MSELoss pred_real valid)
                                        (MSELoss pred_fake_from_G fake))
                                 (MSELoss pred_real_input fake)) 2 in
  let rD := discriminator_phase self img img_clean fake_A s1 in
  fake_A = NAFNet true (state_dict (net_G s)) img /\
  value rD = loss_D /\
  emitted (discriminator_phase self img img_clean fake_A) s1
    = [Forward D true img_clean; Forward D true img; Forward D true fake_A] /\
  graph_loss_D img img_clean fake_A s1 G = None /\
  grad (net_G (final rD)) = grad (net_G s1) /\
  loss_sum_D (final rD) = py_add (loss_sum_D s1) (item loss_D).
Proof.
  cbv zeta.
  split; [vm_compute; reflexivity |]. split; [vm_compute; reflexivity |].
  split; [apply discriminator_phase_events |].
  split; [reflexivity |]. split; vm_compute; reflexivity.
Qed.

(** C3, amended.  In each phase, at every instant from the completion of
    its four mode-setting calls to the end of the phase, exactly one of the
    two networks is trainable: the generator in the Generator Phase, the
    discriminator in the Discriminator Phase, the other one being frozen
    and in eval mode; and the parameters of the frozen network are the same
    at each of these instants and after the phase as they were before it,
    although the Generator Phase does evaluate the frozen discriminator (on
    [fake_A]); the Discriminator Phase does not evaluate the generator. *)
Theorem phase_exclusivity (self : Trainer)
        (img img_clean fake_mark fake_A : tensor) (s : State) :
  let rG := generator_phase self img img_clean fake_mark s in
  let rD := discriminator_phase self img img_clean fake_A s in
  Forall (fun p => exactly_one_trainable p = true /\ trainable G p = true /\
                   training (net_D p) = false /\
                   state_dict (net_D p) = state_dict (net_D s))
         (skipn 3 (points rG)) /\
  length (points rG) = 11 /\
  state_dict (net_D (final rG)) = state_dict (net_D s) /\
  filter (is_forward_of D) (emitted (generator_phase self img img_clean fake_mark) s)
    = [Forward D false (NAFNet true (state_dict (net_G s)) img)] /\
  Forall (fun p => exactly_one_trainable p = true /\ trainable D p = true /\
                   training (net_G p) = false /\
                   state_dict (net_G p) = state_dict (net_G s))
         (skipn 3 (points rD)) /\
  length (points rD) = 11 /\
  state_dict (net_G (final rD)) = state_dict (net_G s) /\
  filter (is_forward_of G) (emitted (discriminator_phase self img img_clean fake_A) s)
    = [].
Proof.
  cbv zeta.
  split; [ | split; [ | split; [ | split; [ | split; [ | split; [ | split ] ] ] ] ] ].
  - cbn. repeat constructor.
  - vm_compute; reflexivity.
  - vm_compute; reflexivity.
  - rewrite generator_phase_events. reflexivity.
  - cbn. repeat constructor.
  - vm_compute; reflexivity.
  - vm_compute; reflexivity.
  - rewrite discriminator_phase_events. reflexivity.
Qed.

(** ** Checkpoints *)

Lemma emitted_save_checkpoint (self : Trainer) (ep : nat) (s : State) :
  emitted (save_checkpoint self ep) s
    = if is_local_main_process (accelerator self)
      then [Save (checkpoint_path ep) (state_dict (net_G s))] else [].
Proof.
  unfold emitted, save_checkpoint.
  destruct (is_local_main_process (accelerator self)); cbn.
  - apply skipn_length_app.
  - rewrite <- (app_nil_r (events s)) at 2. apply skipn_length_app.
Qed.

Lemma save_checkpoint_weights (self : Trainer) (ep : nat) (s : State) :
  net_G (final (save_checkpoint self ep s)) = net_G s.
Proof.
  unfold save_checkpoint.
  destruct (is_local_main_process (accelerator self)); reflexivity.
Qed.

Lemma epoch_saves (self : Trainer) (reduce : nat -> tensor -> tensor) (ep : nat)
      (s : State) :
  filter is_save (emitted (epoch self reduce ep) s)
    = if is_local_main_process (accelerator self)
      then [Save (checkpoint_path ep)
                 (state_dict (net_G (final (epoch self reduce ep s))))]
      else [].
Proof.
  unfold epoch.
  rewrite (emitted_bind anything).
  2: apply (appends_anything _ _ (appends_epoch_steps self ep)).
  2: { intros _. apply appends_bind;
         [apply (appends_anything _ _ (appends_test self (reduce ep) ep))
         | intros _; apply appends_save_checkpoint]. }
  rewrite (emitted_bind anything).
  2: apply (appends_anything _ _ (appends_test self (reduce ep) ep)).
  2: intros _; apply appends_save_checkpoint.
  rewrite !filter_app.
  rewrite (filter_none is_save (emitted (epoch_steps self ep) s)).
  2: apply (appends_emitted not_save), appends_epoch_steps.
  rewrite (filter_none is_save (emitted (test self (reduce ep) ep) _)).
  2: apply (appends_emitted not_save), appends_test.
  rewrite emitted_save_checkpoint, !final_bind, save_checkpoint_weights.
  destruct (is_local_main_process (accelerator self)); reflexivity.
Qed.

Lemma epochs_saves (self : Trainer) (reduce : nat -> tensor -> tensor) (s : State)
      (k : nat) :
  filter is_save (emitted (for_each (epoch self reduce) (seq 0 k)) s)
    = if is_local_main_process (accelerator self)
      then map (fun ep =>
                  Save (checkpoint_path ep)
                       (state_dict
                          (net_G (final (for_each (epoch self reduce)
                                                  (seq 0 (S ep)) s)))))
               (seq 0 k)
      else [].
Proof.
  induction k as [ | k IH].
  - cbn. unfold emitted. cbn.
    rewrite <- (app_nil_r (events s)) at 2. rewrite skipn_length_app.
    destruct (is_local_main_process (accelerator self)); reflexivity.
  - rewrite seq_S at 1. cbn [Nat.add].
    rewrite (emitted_for_each_app anything) by (intros ep; apply appends_epoch).
    rewrite filter_app, IH, emitted_for_each_one, epoch_saves.
    destruct (is_local_main_process (accelerator self)); [ | reflexivity].
    rewrite (seq_S k 0), map_app. cbn [Nat.add map].
    rewrite (seq_S k 0). cbn [Nat.add].
    rewrite final_for_each_app, final_for_each_one. reflexivity.
Qed.

Lemma emitted_train (self : Trainer) (reduce : nat -> tensor -> tensor) (s : State) :
  emitted (train self reduce) s
    = emitted (for_each (epoch self reduce) (seq 0 (epochs (args self))))
              (set_loss_sums (py_float 0) (py_float 0) s).
Proof. unfold emitted, train. rewrite final_bind. reflexivity. Qed.

Lemma string_length_append (a b : string) :
  String.length (a ++ b) = String.length a + String.length b.
Proof. induction a as [ | c a IH]; [reflexivity | cbn; rewrite IH; reflexivity]. Qed.

Lemma string_append_inj_l (p a b : string) : (p ++ a = p ++ b)%string -> a = b.
Proof.
  induction p as [ | c p IH]; cbn; intros H; [exact H |].
  injection H as H. exact (IH H).
Qed.

Lemma string_append_inj_r (a b s : string) : (a ++ s = b ++ s)%string -> a = b.
Proof.
  revert b. induction a as [ | c a IH]; intros [ | d b] H; cbn in H.
  - reflexivity.
  - apply (f_equal String.length) in H. cbn in H.
    rewrite string_length_append in H. lia.
  - apply (f_equal String.length) in H. cbn in H.
    rewrite string_length_append in H. lia.
  - injection H as Hc H. rewrite Hc, (IH b H). reflexivity.
Qed.

(** Two epochs never share a checkpoint file. *)
Lemma checkpoint_path_inj (ep ep' : nat) :
  checkpoint_path ep = checkpoint_path ep' -> ep = ep'.
Proof.
  unfold checkpoint_path. intros H.
  apply string_append_inj_l, string_append_inj_r in H.
  apply (f_equal NilEmpty.uint_of_string) in H. rewrite !NilEmpty.usu in H.
  injection H as H. apply Unsigned.to_uint_inj. exact H.
Qed.

Lemma writers_from (n k start : nat) :
  writers (map (fun i => {| process_index := i; local_process_index := i;
                            num_processes := n |}) (seq (S start) k)) = [].
Proof.
  revert start. induction k as [ | k IH]; intros start; [reflexivity |].
  cbn [seq map]. unfold writers in *.
  cbn [filter is_local_main_process local_process_index Nat.eqb].
  apply IH.
Qed.

(** C8, amended.  Over a run of [train], a process whose local rank is 0
    (the local main process of its machine) writes exactly one checkpoint
    per epoch, named [output_GAN/ep_<epoch index>.pth] (a name no other
    epoch uses), holding the generator's parameters as they are at the end
    of that epoch and nothing else; the write is the last thing the epoch
    does, after its steps and its evaluation; every other process skips the
    write with no effect at all.  In a run on one machine exactly one
    process, the one of rank 0, writes. *)
Theorem checkpoints_written (self : Trainer) (reduce : nat -> tensor -> tensor)
        (s : State) :
  filter is_save (emitted (train self reduce) s)
    = (if is_local_main_process (accelerator self)
       then map (fun ep => Save (checkpoint_path ep)
                                (state_dict (net_G (after_epochs self reduce s (S ep)))))
                (seq 0 (epochs (args self)))
       else []) /\
  (forall ep s', is_local_main_process (accelerator self) = false ->
                 save_checkpoint self ep s' = (tt, s', [])) /\
  (forall ep s', exists before,
      emitted (epoch self reduce ep) s'
        = before ++ emitted (save_checkpoint self ep)
                            (final (bind (epoch_steps self ep)
                                         (fun _ => test self (reduce ep) ep) s')) /\
      Forall (fun e => is_save e = false) before) /\
  (forall n, writers (single_machine_run (S n))
             = [{| process_index := 0; local_process_index := 0;
                   num_processes := S n |}]) /\
  checkpoint_path 0 = "output_GAN/ep_0.pth"%string /\
  checkpoint_path 12 = "output_GAN/ep_12.pth"%string /\
  (forall ep ep', checkpoint_path ep = checkpoint_path ep' -> ep = ep').
Proof.
  split; [ | split; [ | split; [ | split; [ | split; [ | split ] ] ] ] ].
  - rewrite emitted_train. apply epochs_saves.
  - intros ep s' H. unfold save_checkpoint. rewrite H. reflexivity.
  - intros ep s'.
    exists (emitted (bind (epoch_steps self ep) (fun _ => test self (reduce ep) ep)) s').
    assert (H : appends not_save (bind (epoch_steps self ep)
                                       (fun _ => test self (reduce ep) ep))).
    { apply appends_bind; [apply appends_epoch_steps | intros _; apply appends_test]. }
    split; [ | apply (appends_emitted not_save), H].
    unfold epoch.
    rewrite (emitted_bind anything _ _ s').
    2: apply (appends_anything _ _ (appends_epoch_steps self ep)).
    2: { intros _. apply appends_bind;
           [apply (appends_anything _ _ (appends_test self (reduce ep) ep))
           | intros _; apply appends_save_checkpoint]. }
    rewrite (emitted_bind anything (test self (reduce ep) ep)).
    2: apply (appends_anything _ _ (appends_test self (reduce ep) ep)).
    2: intros _; apply appends_save_checkpoint.
    rewrite (emitted_bind not_save (epoch_steps self ep)).
    2: apply appends_epoch_steps.
    2: intros _; apply appends_test.
    rewrite !final_bind, app_assoc. reflexivity.
  - intros n. unfold single_machine_run. cbn [seq map].
    unfold writers. cbn [filter is_local_main_process local_process_index Nat.eqb].
    f_equal. apply (writers_from (S n) n 0).
  - reflexivity.
  - reflexivity.
  - apply checkpoint_path_inj.
Qed.

(** ** The running sums *)

Lemma test_loop_sums (mean std : tensor) (l : list batch) :
  forall psnr s, sums (final (test_loop mean std psnr l s)) = sums s.
Proof.
  induction l as [ | [[img img_clean] img_mask] l IH]; intros psnr s; cbn [test_loop].
  - reflexivity.
  - rewrite final_bind, IH. reflexivity.
Qed.

Lemma test_sums (self : Trainer) (reduce : tensor -> tensor) (ep : nat) (s : State) :
  sums (final (test self reduce ep s)) = sums s.
Proof.
  unfold test, test_mean, test_local, logger_info.
  rewrite !final_bind.
  destruct (is_local_main_process (accelerator self)); cbn [stmt ret final fst snd];
    unfold sums at 1; cbn [emit loss_sum_G loss_sum_D];
    fold (sums (final (test_loop (torch_tensor py_half) (torch_tensor py_half)
                                 (py_float 0) (batches (test_loader self) ep)
                                 (final (module_eval G s)))));
    rewrite test_loop_sums; reflexivity.
Qed.

Lemma save_checkpoint_sums (self : Trainer) (ep : nat) (s : State) :
  sums (final (save_checkpoint self ep s)) = sums s.
Proof.
  unfold save_checkpoint.
  destruct (is_local_main_process (accelerator self)); reflexivity.
Qed.

(** Neither the evaluation nor the checkpoint at the end of an epoch
    touches the running sums. *)
Lemma epoch_sums (self : Trainer) (reduce : nat -> tensor -> tensor) (ep : nat)
      (s : State) :
  sums (final (epoch self reduce ep s)) = sums (final (epoch_steps self ep s)).
Proof.
  unfold epoch. rewrite !final_bind, save_checkpoint_sums, test_sums. reflexivity.
Qed.

(** A step whose index is not a multiple of the window adds its two
    losses to the running sums. *)
Lemma train_step_sums (self : Trainer) (ep step : nat) (b : batch) (s : State) :
  log_due self step = false ->
  sums (final (train_step self ep (step, b) s))
    = (py_add (loss_sum_G s) (fst (step_losses self b s)),
       py_add (loss_sum_D s) (snd (step_losses self b s))).
Proof.
  intros H. destruct b as [[img img_clean] fake_mark].
  unfold train_step, logging. rewrite !final_bind, H.
  vm_compute. reflexivity.
Qed.


(** A step whose index is a multiple of the window emits one record, the
    running sums (this step included) over the window length, and leaves
    both sums at zero. *)
Lemma train_step_logs (self : Trainer) (ep step : nat) (b : batch) (s : State) :
  is_local_main_process (accelerator self) = true ->
  log_due self step = true ->
  filter is_log_train (emitted (train_step self ep (step, b)) s)
    = [LogTrain (ep + 1) (epochs (args self)) (step + 1)
                (len_loader (train_loader self))
                (py_div_int (py_add (loss_sum_G s) (fst (step_losses self b s)))
                            (Zpos (log_step (args self))))
                (py_div_int (py_add (loss_sum_D s) (snd (step_losses self b s)))
                            (Zpos (log_step (args self))))
                (lr (optimizer s))] /\
  sums (final (train_step self ep (step, b) s)) = (py_float 0, py_float 0).
Proof.
  intros Hm H. destruct b as [[img img_clean] fake_mark].
  unfold emitted, train_step, logging, logger_info. rewrite !final_bind, H, Hm.
  split; [ | vm_compute; reflexivity].
  cbn. rewrite <- !app_assoc, skipn_length_app. reflexivity.
Qed.





(** ** The test loader *)

Lemma concat_chunks_aux (n : nat) : 0 < n ->
  forall fuel l, length l <= fuel -> concat (chunks_aux fuel n l) = l.
Proof.
  intros Hn. induction fuel as [ | fuel IH]; intros l Hl.
  - destruct l; [reflexivity | cbn in Hl; lia].
  - destruct l as [ | x l]; [reflexivity |].
    cbn [chunks_aux concat]. rewrite IH.
    + apply firstn_skipn.
    + rewrite length_skipn. cbn [length] in *. lia.
Qed.

Lemma concat_chunks (n : nat) (l : list sample) : 0 < n -> concat (chunks n l) = l.
Proof. intros Hn. apply concat_chunks_aux; [assumption | apply le_n]. Qed.

(** Every process iterates the whole test set in [test]:
    [self.test_loader] is the loader of [build_data], whatever the rank. *)
Lemma test_loader_sees_every_sample (a : Args) (acc : Accelerator)
      (train_set test_set : list sample) (ep : nat) :
  0 < bs a ->
  test_loader (fst (Trainer_init a acc train_set test_set))
    = {| dataset := test_set; batch_size := bs a; shuffle := false |} /\
  samples_seen (test_loader (fst (Trainer_init a acc train_set test_set))) ep
    = length test_set.
Proof.
  intros Hb.
  assert (E : test_loader (fst (Trainer_init a acc train_set test_set))
              = {| dataset := test_set; batch_size := bs a; shuffle := false |})
    by reflexivity.
  split; [exact E |].
  unfold samples_seen, sample_groups. rewrite E. cbn [dataset batch_size shuffle].
  rewrite concat_chunks by assumption. reflexivity.
Qed.

(** The mean computed by [test] is the reduced sum over the size of the
    whole test set. *)
Lemma test_mean_value (self : Trainer) (reduce : tensor -> tensor) (ep : nat)
      (s : State) :
  value (test_mean self reduce ep s)
    = t_div_int (reduce (torch_tensor (value (test_local self ep s))))
                (Z.of_nat (length (data_test self))).
Proof. unfold test_mean. rewrite value_bind. reflexivity. Qed.

End Facts.

End TrainFacts.

(* ================================================================= *)
(** * Concrete runs on the stand-in collaborators *)

Module Runs.

Import Train TrainFacts Standin.

(** C3 as stated fails.  In the second step of a run, the Generator Phase
    starts with the discriminator trainable and the generator frozen (the
    state the previous Discriminator Phase left): after
    [net_G.requires_grad_(True)] and until [net_D.requires_grad_(False)],
    both networks are trainable.  Symmetrically, in the Discriminator
    Phase that follows, after [net_G.requires_grad_(False)] and until
    [net_D.requires_grad_(True)], neither is. *)
Lemma mode_switch_counterexample :
  map (fun p => (trainable G p, trainable D p))
      (firstn 4 (points (generator_phase (fst short_run) (image 3) (image 1) (image 2)
                                         after_one_step)))
    = [(false, true); (true, true); (true, true); (true, false)] /\
  map exactly_one_trainable
      (firstn 4 (points (generator_phase (fst short_run) (image 3) (image 1) (image 2)
                                         after_one_step)))
    = [true; false; false; true] /\
  map (fun p => (trainable G p, trainable D p))
      (firstn 4 (points (discriminator_phase (fst short_run) (image 3) (image 1)
                           (fst (value (generator_phase (fst short_run) (image 3)
                                          (image 1) (image 2) after_one_step)))
                           (final (generator_phase (fst short_run) (image 3)
                                     (image 1) (image 2) after_one_step)))))
    = [(true, false); (false, false); (false, false); (false, true)].
Proof. repeat split; vm_compute; reflexivity. Qed.

(** C4, on the code.  Two processes on one machine evaluate a test set of
    three images, each image with a PSNR of 30.  [self.test_loader] is the
    loader [build_data] made, not the one [accelerator.prepare] returned,
    so each process visits all three images: the two local sums are 90,
    the collective returns 180 to both, and both processes report
    180 / 3 = 60, while the sum of the local sums over the number of
    samples they cover is 180 / 6 = 30. *)
Theorem test_reports_a_multiple_of_the_mean :
  map (fun w => samples_seen (test_loader (fst w)) 0) two_process_run = [3; 3]%nat /\
  map (local_psnr 0) two_process_run = [F 90; F 90] /\
  world_total 0 two_process_run = [F 180] /\
  world_test 0 two_process_run = [[F 60]; [F 60]] /\
  Float64.div_int (F 180) (3 + 3) = F 30 /\
  F 60 <> F 30.
Proof.
  repeat split; try (vm_compute; reflexivity).
  vm_compute. discriminate.
Qed.

(** C6, on the code.  With the default window of 20, the first step of a
    run (epoch 0, step 0) already emits a record, since [0 % 20 == 0]: its
    generator loss is 1 and its discriminator loss 6.5, and the record
    reports 1/20 and 6.5/20 as the means of the window, which covers this
    one step only. *)
Theorem first_record_divides_one_step_by_window :
  step_losses (fst default_run) a_batch (reset (snd default_run))
    = (F 1, Float64.div_int (F 13) 2) /\
  filter is_log_train
         (emitted (train_step (fst default_run) 0 (0%nat, a_batch))
                  (reset (snd default_run)))
    = [LogTrain 1 2 1 3 (Float64.div_int (F 1) 20)
                (Float64.div_int (Float64.div_int (F 13) 2) 20) half] /\
  hd_error (filter is_log_train
                   (emitted (train (fst default_run) no_peers) (snd default_run)))
    = Some (LogTrain 1 2 1 3 (Float64.div_int (F 1) 20)
                     (Float64.div_int (Float64.div_int (F 13) 2) 20) half) /\
  Float64.div_int (F 1) 20 <> F 1.
Proof.
  repeat split; try (vm_compute; reflexivity).
  vm_compute. discriminate.
Qed.

(** C8 as stated fails.  In a run over two machines with one process each,
    both processes have local rank 0, and both write the checkpoint of
    every epoch. *)
Lemma two_machines_both_write :
  map is_local_main_process two_machines = [true; true] /\
  writers two_machines = two_machines /\
  files_written two_machines
    = [[Save "output_GAN/ep_0.pth" (Float64.div_int (F (-3)) 2);
        Save "output_GAN/ep_1.pth" (F (-2))];
       [Save "output_GAN/ep_0.pth" (Float64.div_int (F (-3)) 2);
        Save "output_GAN/ep_1.pth" (F (-2))]].
Proof. repeat split; vm_compute; reflexivity. Qed.


End Runs.

(* ================================================================= *)
(** * Rounding to 53 bits: error bounds *)

Module Float64Rounding.

Import Float64 Float64Facts.
Open Scope Z_scope.

Lemma shr_1_m (mrs : shr_record) :
  0 <= shr_m mrs -> shr_m (shr_1 mrs) = shr_m mrs / 2.
Proof.
  destruct mrs as [m r s]; cbn [shr_m]. intros Hm.
  destruct m as [ | p | p ]; [reflexivity | | lia].
  destruct p as [p | p | ]; cbn [shr_1 shr_m].
  - rewrite Pos2Z.inj_xI. apply Z.div_unique with (r := 1); lia.
  - rewrite Pos2Z.inj_xO. apply Z.div_unique with (r := 0); lia.
  - reflexivity.
Qed.

Lemma shr_1_nonneg (mrs : shr_record) : 0 <= shr_m mrs -> 0 <= shr_m (shr_1 mrs).
Proof. intros H. apply (shr_1_digits mrs H). Qed.

Lemma iter_shr_1_m (p : positive) : forall mrs : shr_record,
  0 <= shr_m mrs ->
  shr_m (iter_pos shr_1 p mrs) = shr_m mrs / 2 ^ Zpos p.
Proof.
  induction p as [p IH | p IH | ]; intros mrs Hm; cbn [iter_pos].
  - pose proof (shr_1_nonneg mrs Hm) as H1.
    destruct (iter_shr_1_digits p _ H1) as [H2 _].
    rewrite IH, IH, shr_1_m by assumption.
    rewrite !Z.div_div by lia.
    f_equal. rewrite <- Z.pow_add_r by lia.
    replace (Zpos p~1) with (1 + (Zpos p + Zpos p)) by lia.
    rewrite (Z.pow_add_r 2 1) by lia. reflexivity.
  - destruct (iter_shr_1_digits p _ Hm) as [H2 _].
    rewrite IH, IH by assumption.
    rewrite !Z.div_div by lia.
    f_equal. rewrite <- Z.pow_add_r by lia. f_equal. lia.
  - rewrite shr_1_m by assumption. reflexivity.
Qed.

Lemma shr_fexp_m (m e : Z) (l : location) :
  0 <= m -> 0 <= fexp prec emax (Zdigits2 m + e) - e ->
  let n := fexp prec emax (Zdigits2 m + e) - e in
  shr_m (fst (shr_fexp prec emax m e l)) = m / 2 ^ n /\
  snd (shr_fexp prec emax m e l) = e + n.
Proof.
  intros Hm Hn n. subst n. unfold shr_fexp, shr.
  destruct (fexp prec emax (Zdigits2 m + e) - e) as [ | n | n ] eqn:E;
    cbn [fst snd]; rewrite ?shr_m_of_loc.
  - rewrite Z.pow_0_r, Z.div_1_r. split; lia.
  - rewrite iter_shr_1_m by (rewrite shr_m_of_loc; assumption).
    rewrite shr_m_of_loc. split; reflexivity.
  - lia.
Qed.

Lemma Zdigits2_53 (m : Z) : 2 ^ 52 <= m < 2 ^ 53 -> Zdigits2 m = 53.
Proof.
  intros [H1 H2]. rewrite Zdigits2_pos_eq by lia.
  assert (Z.log2 m = 52); [ | lia].
  apply Z.log2_unique; lia.
Qed.

(** Rounding a mantissa of at least 53 bits in the normal range: the
    result is the mantissa cut to 53 bits, or its successor. *)
Lemma binary_round_aux_normal (mx ex : Z) (lx : location) :
  0 < mx -> 53 <= Zdigits2 mx ->
  -1074 <= ex + (Zdigits2 mx - 53) <= 970 ->
  let n := Zdigits2 mx - 53 in
  exists m e k,
    binary_round_aux prec emax false mx ex lx = S754_finite false m e /\
    digits2_pos m = 53%positive /\
    ex + n <= e <= ex + n + 1 /\
    (k = 0 \/ k = 1) /\
    Zpos m * 2 ^ (e - ex) = (mx / 2 ^ n + k) * 2 ^ n.
Proof.
  intros Hm Hd He n. unfold binary_round_aux.
  assert (Hn : fexp prec emax (Zdigits2 mx + ex) - ex = n)
    by (unfold fexp, emin, prec, emax; lia).
  destruct (shr_fexp_m mx ex lx) as [H1 H2]; [lia | lia |].
  rewrite Hn in H1, H2.
  destruct (shr_fexp prec emax mx ex lx) as [mrs' e'] eqn:E1. cbn [fst snd] in H1, H2.
  pose proof (round_nearest_even_bounds (shr_m mrs') (loc_of_shr_record mrs')) as Hr.
  set (mx' := round_nearest_even (shr_m mrs') (loc_of_shr_record mrs')) in *.
  rewrite H1 in Hr.
  pose proof (Zdigits2_spec mx Hm) as Hs.
  assert (Hm1 : 2 ^ 52 <= mx / 2 ^ n < 2 ^ 53).
  { assert (Hp : 0 < 2 ^ n) by (apply Z.pow_pos_nonneg; lia).
    split.
    - apply Z.div_le_lower_bound; [assumption |].
      rewrite <- Z.pow_add_r by lia.
      replace (n + 52) with (Zdigits2 mx - 1) by lia. apply Hs.
    - apply Z.div_lt_upper_bound; [assumption |].
      rewrite <- Z.pow_add_r by lia.
      replace (n + 53) with (Zdigits2 mx) by lia. apply Hs. }
  destruct (Z.eq_dec mx' (2 ^ 53)) as [Hc | Hc].
  - (* the rounding carried into a 54th bit *)
    assert (Hshift : shr_fexp prec emax mx' e' loc_Exact
                     = ({| shr_m := 2 ^ 52; shr_r := false; shr_s := false |}, e' + 1)).
    { rewrite Hc. unfold shr_fexp.
      change (Zdigits2 (2 ^ 53)) with 54.
      replace (fexp prec emax (54 + e') - e') with 1
        by (unfold fexp, emin, prec, emax; lia).
      reflexivity. }
    rewrite Hshift. cbn [shr_m].
    change (2 ^ 52) with (Zpos 4503599627370496).
    assert (Hle : (e' + 1 <=? emax - prec) = true)
      by (apply Z.leb_le; unfold prec, emax; lia).
    rewrite Hle.
    exists 4503599627370496%positive, (e' + 1), 1.
    split; [reflexivity |]. split; [reflexivity |].
    split; [lia |]. split; [right; reflexivity |].
    replace (e' + 1 - ex) with (1 + n) by lia.
    rewrite Z.pow_add_r by lia.
    replace (mx / 2 ^ n + 1) with (2 ^ 53) by lia.
    change (2 ^ 53) with (2 ^ 52 * 2 ^ 1). change (Zpos 4503599627370496) with (2 ^ 52). ring.
  - assert (Hd' : Zdigits2 mx' = 53) by (apply Zdigits2_53; lia).
    assert (Hshift : shr_fexp prec emax mx' e' loc_Exact
                     = ({| shr_m := mx'; shr_r := false; shr_s := false |}, e')).
    { unfold shr_fexp. rewrite Hd'.
      replace (fexp prec emax (53 + e') - e') with 0
        by (unfold fexp, emin, prec, emax; lia).
      reflexivity. }
    rewrite Hshift. cbn [shr_m].
    destruct mx' as [ | m | m ] eqn:Em; try lia.
    assert (Hle : (e' <=? emax - prec) = true)
      by (apply Z.leb_le; unfold prec, emax; lia).
    rewrite Hle.
    exists m, e', (Zpos m - mx / 2 ^ n).
    split; [reflexivity |].
    split; [cbn [Zdigits2] in Hd'; lia |].
    split; [lia |]. split; [lia |].
    replace (e' - ex) with n by lia.
    replace (mx / 2 ^ n + (Zpos m - mx / 2 ^ n)) with (Zpos m) by lia. reflexivity.
Qed.

Lemma pow2_split (n : Z) (x : Z) : 0 <= n -> 0 <= x ->
  (x / 2 ^ n) * 2 ^ n <= x < (x / 2 ^ n + 1) * 2 ^ n.
Proof.
  intros Hn Hx. assert (Hp : 0 < 2 ^ n) by (apply Z.pow_pos_nonneg; lia).
  pose proof (Z.div_mod x (2 ^ n) ltac:(lia)) as H.
  pose proof (Z.mod_pos_bound x (2 ^ n) Hp) as Hb. nia.
Qed.

(** The relative error of a rounding to 53 bits is below [2^-52]. *)
Lemma round_error (mx ex : Z) (lx : location) :
  0 < mx -> 53 <= Zdigits2 mx ->
  -1074 <= ex + (Zdigits2 mx - 53) <= 970 ->
  exists m e i,
    binary_round_aux prec emax false mx ex lx = S754_finite false m e /\
    digits2_pos m = 53%positive /\
    e = ex + i /\ Zdigits2 mx - 53 <= i <= Zdigits2 mx - 52 /\
    (mx + 1) * 2 ^ 52 - mx <= Zpos m * 2 ^ i * 2 ^ 52 <= mx * 2 ^ 52 + mx.
Proof.
  intros Hm Hd He.
  destruct (binary_round_aux_normal mx ex lx Hm Hd He)
    as (m & e & k & E & Hdm & Hi & Hk & Hv).
  exists m, e, (e - ex). split; [exact E |]. split; [exact Hdm |].
  split; [lia |]. split; [lia |].
  rewrite Hv.
  set (n := Zdigits2 mx - 53) in *.
  pose proof (pow2_split n mx ltac:(lia) ltac:(lia)) as Hs.
  pose proof (Zdigits2_spec mx Hm) as Hdig.
  assert (Hn : 2 ^ n * 2 ^ 52 <= mx).
  { rewrite <- Z.pow_add_r by lia.
    replace (n + 52) with (Zdigits2 mx - 1) by lia. apply Hdig. }
  assert (Hp : 0 < 2 ^ n) by (apply Z.pow_pos_nonneg; lia).
  destruct Hk as [-> | ->]; nia.
Qed.

Lemma Zdigits2_range (m lo hi : Z) :
  0 <= lo -> 2 ^ lo <= m < 2 ^ hi -> lo + 1 <= Zdigits2 m <= hi.
Proof.
  intros Hlo [H1 H2].
  assert (0 < m) by (pose proof (Z.pow_pos_nonneg 2 lo); lia).
  rewrite Zdigits2_pos_eq by lia.
  assert (Hhi : 0 <= hi).
  { destruct (Z_lt_le_dec hi 0) as [Hneg | ]; [ | assumption].
    rewrite Z.pow_neg_r in H2 by assumption. lia. }
  pose proof (proj1 (Z.log2_le_pow2 m lo ltac:(lia)) H1).
  pose proof (proj1 (Z.log2_lt_pow2 m hi ltac:(lia)) H2). lia.
Qed.

Lemma div_error (mh mw : positive) (eh ew : Z) :
  digits2_pos mh = 53%positive -> digits2_pos mw = 53%positive ->
  -52 <= eh <= 0 -> -52 <= ew <= 0 ->
  exists mq eq j,
    div (S754_finite false mh eh) (S754_finite false mw ew) = S754_finite false mq eq /\
    digits2_pos mq = 53%positive /\
    eq = eh - ew - 53 + j /\ 0 <= j <= 2 /\
    Zpos mh * 2 * (2 ^ 52 - 1) < Zpos mq * 2 ^ j * Zpos mw
      <= Zpos mh * 2 * (2 ^ 52 + 1).
Proof.
  intros Hdh Hdw Heh Hew. unfold div, SFdiv, SFdiv_core_binary.
  cbn [Zdigits2 xorb]. rewrite Hdh, Hdw.
  assert (He' : Z.min (fexp prec emax (53 + eh - (53 + ew))) (eh - ew) = eh - ew - 53)
    by (unfold fexp, emin, prec, emax; lia).
  rewrite He'.
  replace (eh - ew - (eh - ew - 53)) with 53 by lia.
  assert (Hq : Z.div_eucl (Z.shiftl (Zpos mh) 53) (Zpos mw)
               = (Z.shiftl (Zpos mh) 53 / Zpos mw, Z.shiftl (Zpos mh) 53 mod Zpos mw)).
  { unfold Z.div, Z.modulo. destruct (Z.div_eucl _ _); reflexivity. }
  change (IntDef.Z.div_eucl _ (Z.pos mw))
    with (Z.div_eucl (Z.shiftl (Z.pos mh) 53) (Z.pos mw)).
  rewrite Hq. rewrite Z.shiftl_mul_pow2 by lia.
  set (q0 := Zpos mh * 2 ^ 53 / Zpos mw).
  pose proof (Zdigits2_spec (Zpos mh) ltac:(lia)) as Hx.
  pose proof (Zdigits2_spec (Zpos mw) ltac:(lia)) as Hy.
  cbn [Zdigits2] in Hx, Hy. rewrite Hdh in Hx. rewrite Hdw in Hy.
  change (2 ^ (53 - 1)) with (2 ^ 52) in *.
  pose proof (Z.div_mod (Zpos mh * 2 ^ 53) (Zpos mw) ltac:(lia)) as Hdm.
  pose proof (Z.mod_pos_bound (Zpos mh * 2 ^ 53) (Zpos mw) ltac:(lia)) as Hmb.
  fold q0 in Hdm.
  assert (Hq0 : 2 ^ 52 <= q0 < 2 ^ 54).
  { split.
    - apply Z.div_le_lower_bound; lia.
    - apply Z.div_lt_upper_bound; lia. }
  pose proof (Zdigits2_range q0 52 54 ltac:(lia) Hq0) as Hdq.
  destruct (round_error q0 (eh - ew - 53)
              (new_location (Zpos mw) (Zpos mh * 2 ^ 53 mod Zpos mw)))
    as (m & e & i & E & Hdm' & He & Hi & Hv); try lia.
  exists m, e, i. split; [exact E |]. split; [exact Hdm' |].
  split; [lia |]. split; [lia |].
  nia.
Qed.

Lemma mul_error (mq ms : positive) (eq es : Z) :
  digits2_pos mq = 53%positive -> digits2_pos ms = 53%positive ->
  -1000 <= eq + es <= 900 ->
  exists mp ep i,
    mul (S754_finite false mq eq) (S754_finite false ms es) = S754_finite false mp ep /\
    ep = eq + es + i /\ 0 <= i /\
    Zpos mq * Zpos ms * (2 ^ 52 - 1) < Zpos mp * 2 ^ i * 2 ^ 52
      <= Zpos mq * Zpos ms * (2 ^ 52 + 1).
Proof.
  intros Hdq Hds He. unfold mul, SFmul. cbn [xorb].
  pose proof (Zdigits2_spec (Zpos mq) ltac:(lia)) as Hx.
  pose proof (Zdigits2_spec (Zpos ms) ltac:(lia)) as Hy.
  cbn [Zdigits2] in Hx, Hy. rewrite Hdq in Hx. rewrite Hds in Hy.
  change (2 ^ (53 - 1)) with (2 ^ 52) in *.
  assert (Hp : 2 ^ 104 <= Zpos (mq * ms) < 2 ^ 106).
  { rewrite Pos2Z.inj_mul.
    change (2 ^ 104) with (2 ^ 52 * 2 ^ 52). change (2 ^ 106) with (2 ^ 53 * 2 ^ 53).
    split; [apply Z.mul_le_mono_nonneg | apply Z.mul_lt_mono_nonneg]; lia. }
  pose proof (Zdigits2_range _ 104 106 ltac:(lia) Hp) as Hd.
  destruct (round_error (Zpos (mq * ms)) (eq + es) loc_Exact)
    as (m & e & i & E & _ & Hee & Hi & Hv); try lia.
  exists m, e, i. split; [exact E |]. split; [exact Hee |]. split; [lia |].
  rewrite Pos2Z.inj_mul in Hv. lia.
Qed.

Lemma shiftl_scaled (m t i : Z) :
  0 <= m -> 0 <= i -> t <= 0 -> Z.shiftl m (t + i) = (m * 2 ^ i) / 2 ^ (- t).
Proof.
  intros Hm Hi Ht. destruct (Z_le_gt_dec 0 (t + i)) as [H | H].
  - rewrite Z.shiftl_mul_pow2 by assumption.
    replace i with ((t + i) + (- t)) at 2 by lia.
    rewrite (Z.pow_add_r 2 (t + i) (- t)), Z.mul_assoc by lia.
    rewrite Z.div_mul; [reflexivity |]. apply Z.pow_nonzero; lia.
  - rewrite Z.shiftl_div_pow2 by lia.
    replace (- t) with (- (t + i) + i) by lia.
    rewrite (Z.pow_add_r 2 (- (t + i)) i) by lia.
    rewrite Z.div_mul_cancel_r; [reflexivity | |]; apply Z.pow_nonzero; lia.
Qed.

(** The arithmetic of two successive roundings: a value within a relative
    error of [2^-52] twice of [P/w], with [P <= 2^50], has the floor of
    [P/w], or one less when [w] divides [P]. *)
Lemma two_roundings_floor (P w0 Np D : Z) :
  0 <= P <= 2 ^ 50 -> 0 < w0 -> 0 < D ->
  (2 ^ 52 - 1) * (2 ^ 52 - 1) * P * D <= Np * w0 * 2 ^ 104
    <= (2 ^ 52 + 1) * (2 ^ 52 + 1) * P * D ->
  P / w0 - 1 <= Np / D <= P / w0 /\
  (P mod w0 <> 0 -> Np / D = P / w0).
Proof.
  intros HP Hw HD [Hlo Hhi].
  pose proof (Z.div_mod P w0 ltac:(lia)) as Hdm.
  pose proof (Z.mod_pos_bound P w0 Hw) as Hr.
  set (E := P / w0) in *. set (r := P mod w0) in *.
  assert (HPD : 0 <= P * D) by nia.
  assert (HPD' : P * D <= 2 ^ 50 * D) by nia.
  assert (Hup : Np * w0 < (P + 1) * D) by nia.
  assert (Hdn : (2 * P - 1) * D <= 2 * (Np * w0)) by nia.
  assert (Hlt : Np / D < E + 1).
  { apply Z.div_lt_upper_bound; [assumption |]. nia. }
  assert (Hge : E - 1 <= Np / D).
  { apply Z.div_le_lower_bound; [assumption |]. nia. }
  split; [lia |]. intros Hne.
  assert (E <= Np / D); [ | lia].
  apply Z.div_le_lower_bound; [assumption |]. nia.
Qed.

End Float64Rounding.

(* ================================================================= *)
(** * Further properties of [PadResize] *)

Module TransProperties.

Import Float64 Float64Facts Float64Rounding Trans TransFacts.
Open Scope Z_scope.

Lemma pow2_ge_exp (a k : Z) : 0 <= a -> 2 ^ k <= 2 ^ a -> k <= a.
Proof.
  intros Ha H. destruct (Z_le_gt_dec k a) as [ | Hgt]; [assumption |].
  assert (2 ^ a < 2 ^ k) by (apply Z.pow_lt_mono_r; lia). lia.
Qed.

(** The scaled height against the exact ratio: for [h * S <= 2^50] the
    value [int((h/w)*S)] is the integer quotient of [h * S] by [w], except
    that it can be one less when [w] divides [h * S]. *)
Lemma scaled_height_floor (h w0 S : Z) :
  0 <= h -> 0 < w0 < 2 ^ 53 -> 0 < S < 2 ^ 53 -> h * S <= 2 ^ 50 ->
  exists hs,
    scaled_height h w0 S = Some hs /\
    h * S / w0 - 1 <= hs <= h * S / w0 /\
    ((h * S) mod w0 <> 0 -> hs = h * S / w0).
Proof.
  intros Hh Hw HS HP. unfold scaled_height, int_true_div.
  assert (Hw0 : (w0 =? 0) = false) by (apply Z.eqb_neq; lia). rewrite Hw0.
  destruct (of_int_normal w0 Hw) as (mw & ew & Ew & Hdw & Hew & Hmw).
  destruct (of_int_normal S HS) as (ms & es & Es & Hds & Hes & Hms).
  rewrite Ew, Es.
  destruct (Z.eq_dec h 0) as [-> | Hne].
  { exists 0. split; [reflexivity |].
    rewrite Z.mul_0_l, Z.div_0_l, Z.mod_0_l by lia. split; [lia |]. intros H; lia. }
  assert (Hh53 : 0 < h < 2 ^ 53) by nia.
  destruct (of_int_normal h Hh53) as (mh & eh & Eh & Hdh & Heh & Hmh).
  rewrite Eh.
  destruct (div_error mh mw eh ew Hdh Hdw Heh Hew)
    as (mq & eq & j & -> & Hdq & Heq & Hj & Hq).
  destruct (mul_error mq ms eq es Hdq Hds ltac:(lia))
    as (mp & ep & i & -> & Hep & Hi & Hp).
  cbn [int_of_float cond_Zopp].
  exists (Z.shiftl (Zpos mp) ep). split; [reflexivity |].
  set (a := - eh) in *. set (b := - ew) in *. set (c := - es) in *.
  pose proof (Zdigits2_spec (Zpos mh) ltac:(lia)) as Hxh.
  pose proof (Zdigits2_spec (Zpos ms) ltac:(lia)) as Hxs.
  cbn [Zdigits2] in Hxh, Hxs. rewrite Hdh in Hxh. rewrite Hds in Hxs.
  change (2 ^ (53 - 1)) with (2 ^ 52) in *.
  assert (HA : 0 < 2 ^ a) by (apply Z.pow_pos_nonneg; lia).
  assert (HB : 0 < 2 ^ b) by (apply Z.pow_pos_nonneg; lia).
  assert (HC : 0 < 2 ^ c) by (apply Z.pow_pos_nonneg; lia).
  assert (HJ : 0 < 2 ^ j) by (apply Z.pow_pos_nonneg; lia).
  (* the exponent of the product is far below zero *)
  assert (Hac : 54 <= a + c).
  { apply pow2_ge_exp; [lia |]. rewrite Z.pow_add_r by lia.
    assert (2 ^ 104 <= Zpos mh * Zpos ms).
    { change (2 ^ 104) with (2 ^ 52 * 2 ^ 52). apply Z.mul_le_mono_nonneg; lia. }
    assert (Zpos mh * Zpos ms = h * S * (2 ^ a * 2 ^ c)) by (rewrite Hmh, Hms; ring).
    assert (h * S * (2 ^ a * 2 ^ c) <= 2 ^ 50 * (2 ^ a * 2 ^ c))
      by (apply Z.mul_le_mono_nonneg_r; nia).
    lia. }
  set (t := eq + es) in *.
  assert (Ht : t <= 0) by lia.
  replace ep with (t + i) by lia.
  rewrite shiftl_scaled by lia.
  assert (HD : 0 < 2 ^ (- t)) by (apply Z.pow_pos_nonneg; lia).
  assert (HDJB : 2 ^ (- t) * 2 ^ j * 2 ^ b = 2 ^ a * 2 ^ c * 2 ^ 53).
  { rewrite <- !Z.pow_add_r by lia. f_equal. lia. }
  apply two_roundings_floor; try lia.
  rewrite Hmh, Hmw, Hms in *.
  set (A := 2 ^ a) in *. set (B := 2 ^ b) in *. set (C := 2 ^ c) in *.
  set (J := 2 ^ j) in *. set (D := 2 ^ (- t)) in *.
  set (Np := Zpos mp * 2 ^ i) in *.
  assert (Hmq : 0 < Zpos mq) by lia.
  (* both bounds, scaled by the positive factor A * C * 2 *)
  assert (HAC : 0 < A * C) by nia.
  destruct Hq as [Hq1 Hq2]. destruct Hp as [Hp1 Hp2].
  assert (G1 : (A * C * 2) * (Np * w0 * 2 ^ 104)
               <= (A * C * 2) * ((2 ^ 52 + 1) * (2 ^ 52 + 1) * (h * S) * D)).
  { assert (E1 : (A * C * 2) * (Np * w0 * 2 ^ 104)
                 = (Np * 2 ^ 52) * (J * (w0 * B)) * D)
      by (change (2 ^ 104) with (2 ^ 52 * 2 ^ 52);
          transitivity (Np * w0 * 2 ^ 52 * (2 * 2 ^ 52 * (A * C))); [ring |];
          replace (2 * 2 ^ 52 * (A * C)) with (D * J * B)
            by (rewrite HDJB; change (2 ^ 53) with (2 * 2 ^ 52); ring); ring).
    rewrite E1.
    assert (S1 : (Np * 2 ^ 52) * (J * (w0 * B))
                 <= (Zpos mq * (S * C) * (2 ^ 52 + 1)) * (J * (w0 * B)))
      by (apply Z.mul_le_mono_nonneg_r; nia).
    assert (S2 : (Zpos mq * J * (w0 * B)) * ((S * C) * (2 ^ 52 + 1))
                 <= (h * A * 2 * (2 ^ 52 + 1)) * ((S * C) * (2 ^ 52 + 1)))
      by (apply Z.mul_le_mono_nonneg_r; nia).
    assert (S3 : (Np * 2 ^ 52) * (J * (w0 * B))
                 <= (h * A * 2 * (2 ^ 52 + 1)) * ((S * C) * (2 ^ 52 + 1))) by lia.
    apply (Z.mul_le_mono_nonneg_r _ _ D) in S3; [ | lia]. lia. }
  assert (G2 : (A * C * 2) * ((2 ^ 52 - 1) * (2 ^ 52 - 1) * (h * S) * D)
               <= (A * C * 2) * (Np * w0 * 2 ^ 104)).
  { assert (E1 : (A * C * 2) * (Np * w0 * 2 ^ 104)
                 = (Np * 2 ^ 52) * (J * (w0 * B)) * D)
      by (change (2 ^ 104) with (2 ^ 52 * 2 ^ 52);
          transitivity (Np * w0 * 2 ^ 52 * (2 * 2 ^ 52 * (A * C))); [ring |];
          replace (2 * 2 ^ 52 * (A * C)) with (D * J * B)
            by (rewrite HDJB; change (2 ^ 53) with (2 * 2 ^ 52); ring); ring).
    rewrite E1.
    assert (S1 : (Zpos mq * (S * C) * (2 ^ 52 - 1)) * (J * (w0 * B))
                 <= (Np * 2 ^ 52) * (J * (w0 * B)))
      by (apply Z.mul_le_mono_nonneg_r; nia).
    assert (S2 : (h * A * 2 * (2 ^ 52 - 1)) * ((S * C) * (2 ^ 52 - 1))
                 <= (Zpos mq * J * (w0 * B)) * ((S * C) * (2 ^ 52 - 1)))
      by (apply Z.mul_le_mono_nonneg_r; nia).
    assert (S3 : (h * A * 2 * (2 ^ 52 - 1)) * ((S * C) * (2 ^ 52 - 1))
                 <= (Np * 2 ^ 52) * (J * (w0 * B))) by lia.
    apply (Z.mul_le_mono_nonneg_r _ _ D) in S3; [ | lia]. lia. }
  split.
  - apply (Z.mul_le_mono_pos_l _ _ (A * C * 2)); [lia | exact G2].
  - apply (Z.mul_le_mono_pos_l _ _ (A * C * 2)); [lia | exact G1].
Qed.

(** ** Padding *)

Lemma scaled_height_same (n S : Z) :
  0 < n < 2 ^ 53 -> 0 < S < 2 ^ 53 -> scaled_height n n S = Some S.
Proof.
  intros Hn HS. unfold scaled_height, int_true_div.
  assert (H0 : (n =? 0) = false) by (apply Z.eqb_neq; lia). rewrite H0.
  destruct (of_int_normal n Hn) as (m & e & E & Hd & He & Hm).
  destruct (of_int_normal S HS) as (m' & e' & E' & Hd' & He' & Hm').
  rewrite <- (int_of_float_of_int S) by lia.
  rewrite E, div_same by assumption. rewrite E', mul_one_l by assumption. reflexivity.
Qed.

Lemma size_padded (self : PadResize) (img : Image) (hs : Z) :
  size (F_pad (Resized img hs (w self) (interpolation self) false)
              0 (h_pad (w self) hs) 0 (bottom_pad (w self) hs))
    = (w self, w self).
Proof. unfold F_pad, bottom_pad. cbn. f_equal; lia. Qed.

(** The scaled height is at least 1 as soon as the exact scaled height
    [h * S / w] is at least 2, or is at least 1 and not a whole number. *)
Lemma scaled_height_positive (h w0 S hs : Z) :
  0 < w0 -> 0 <= h ->
  h * S / w0 - 1 <= hs ->
  ((h * S) mod w0 <> 0 -> hs = h * S / w0) ->
  2 * w0 <= h * S \/ (w0 <= h * S /\ (h * S) mod w0 <> 0) ->
  1 <= hs.
Proof.
  intros Hw Hh Hlo Hex [H2 | [H1 Hne]].
  - assert (2 <= h * S / w0) by (apply Z.div_le_lower_bound; lia). lia.
  - rewrite (Hex Hne). apply Z.div_le_lower_bound; lia.
Qed.

(** X1.  When [__call__] pads (the scaled height [hs] is at least 1, so
    that the resize is accepted, and below [S]), it pads above and below
    only (left and right are 0); both amounts are non-negative, they add
    up to the missing [S - hs] rows, and the bottom receives the odd row:
    the top amount is the bottom amount or one less, and they are equal
    exactly when [S - hs] is even. *)
Theorem PadResize_padding_split (self : PadResize) (img : Image) (hs : Z) :
  scaled_height (height img) (width img) (w self) = Some hs ->
  make_pad self = true -> 1 <= hs -> hs < w self ->
  exists top bottom,
    call self img
      = Some (Padded (Resized img hs (w self) (interpolation self) false)
                     0 top 0 bottom) /\
    0 <= top /\ top <= bottom <= top + 1 /\ top + bottom = w self - hs /\
    (top = bottom <-> Z.even (w self - hs) = true).
Proof.
  intros H Hp Hhs Hlt. exists (h_pad (w self) hs), (bottom_pad (w self) hs).
  rewrite (call_unfold self img hs H) by lia. rewrite Hp.
  assert (Hb : (hs <? w self) = true) by (apply Z.ltb_lt; assumption).
  rewrite Hb. cbn [andb]. unfold F_pad, bottom_pad, h_pad.
  split; [reflexivity |].
  pose proof (Z.div_mod (w self - hs) 2 ltac:(lia)) as Hd.
  rewrite (Zmod_even (w self - hs)) in Hd.
  destruct (Z.even (w self - hs)); repeat split; try lia; intros; try discriminate; lia.
Qed.

Lemma PadResize_padding_split_witness :
  exists top bottom,
    call (PadResize_init 800) (Opened 800 401)
      = Some (Padded (Resized (Opened 800 401) 401 800 BILINEAR false)
                     0 top 0 bottom) /\
    0 <= top /\ top <= bottom <= top + 1 /\ top + bottom = 800 - 401 /\
    (top = bottom <-> Z.even (800 - 401) = true).
Proof.
  apply (PadResize_padding_split (PadResize_init 800) (Opened 800 401) 401).
  - vm_compute. reflexivity.
  - reflexivity.
  - lia.
  - cbn. lia.
Defined.

(** X2.  A square image of any size comes out exactly [S] by [S], resized
    and never padded: [n/n] is exactly [1.0] and [1.0 * S] is exactly
    [S]. *)
Theorem PadResize_square_any_size (self : PadResize) (img : Image) (n : Z) :
  size img = (n, n) -> 0 < n < 2 ^ 53 -> 0 < w self < 2 ^ 53 ->
  call self img = Some (Resized img (w self) (w self) (interpolation self) false).
Proof.
  intros Hs Hn HS.
  assert (H : scaled_height (height img) (width img) (w self) = Some (w self)).
  { unfold height, width. rewrite Hs. cbn [fst snd].
    apply scaled_height_same; assumption. }
  rewrite (call_unfold self img _ H) by lia.
  rewrite Z.ltb_irrefl, andb_false_r. reflexivity.
Qed.

Lemma PadResize_square_any_size_witness :
  call (PadResize_init 800) (Opened 513 513)
    = Some (Resized (Opened 513 513) 800 800 BILINEAR false).
Proof.
  apply (PadResize_square_any_size (PadResize_init 800) (Opened 513 513) 513).
  - reflexivity.
  - lia.
  - cbn. lia.
Defined.





Lemma landscape_height (img : Image) (S hs : Z) :
  well_sized img -> height img <= width img -> 0 < S ->
  hs <= height img * S / width img -> hs <= S.
Proof.
  intros [Hw Hh] Hle HS H.
  assert (height img * S / width img <= S); [ | lia].
  apply Z.div_le_upper_bound; [lia |]. nia.
Qed.

(** What [__call__] returns on an image at least as wide as tall, but not
    flatter than [S/2] to 1, with padding enabled. *)
Lemma landscape_result (self : PadResize) (img : Image) :
  well_sized img -> height img <= width img ->
  0 < w self < 2 ^ 53 -> height img * w self <= 2 ^ 50 ->
  2 * width img <= height img * w self ->
  make_pad self = true ->
  exists out, call self img = Some out /\ size out = (w self, w self).
Proof.
  intros Hi Hle HS HP Hbig Hp. destruct (well_sized_bounds img Hi) as [Hh Hw].
  destruct (scaled_height_floor (height img) (width img) (w self))
    as (hs & H1 & H2 & H3); try lia.
  pose proof (landscape_height img (w self) hs Hi Hle ltac:(lia) ltac:(lia)) as Hhs.
  assert (Hpos : 1 <= hs)
    by (apply (scaled_height_positive (height img) (width img) (w self)); lia).
  rewrite (call_unfold self img hs H1) by lia. rewrite Hp. cbn [andb].
  destruct (Z.ltb_spec hs (w self)) as [Hlt | Hge].
  - eexists. split; [reflexivity | apply size_padded].
  - eexists. split; [reflexivity |]. cbn. f_equal. lia.
Qed.

(** X6.  With padding enabled, every image that is at least as wide as it
    is tall, and not so flat that its scaled height falls below 1
    ([h * S >= 2 * w] is enough), comes out exactly [S] by [S]: the scaled
    height never exceeds [S], and the padding fills what is missing. *)
Theorem PadResize_landscape_is_squared (self : PadResize) (img : Image) :
  well_sized img -> height img <= width img ->
  0 < w self < 2 ^ 53 -> height img * w self <= 2 ^ 50 ->
  2 * width img <= height img * w self ->
  make_pad self = true ->
  exists out, call self img = Some out /\ size out = (w self, w self).
Proof. apply landscape_result. Qed.

Lemma PadResize_landscape_is_squared_witness :
  exists out,
    call (PadResize_init 800) (Opened 1920 1080) = Some out /\
    size out = (w (PadResize_init 800), w (PadResize_init 800)).
Proof.
  apply (PadResize_landscape_is_squared (PadResize_init 800) (Opened 1920 1080)).
  - unfold well_sized. cbn. lia.
  - cbn. lia.
  - cbn. lia.
  - cbn. lia.
  - cbn. lia.
  - reflexivity.
Defined.

(** X4.  On such an image the transform is idempotent in size: applied to
    its own output it returns an image of the same size, and this second
    application resizes without padding. *)
Theorem PadResize_twice (self : PadResize) (img : Image) :
  well_sized img -> height img <= width img ->
  0 < w self < 2 ^ 53 -> height img * w self <= 2 ^ 50 ->
  2 * width img <= height img * w self ->
  make_pad self = true ->
  exists out again,
    call self img = Some out /\ call self out = Some again /\
    size again = size out /\ is_padded again = false.
Proof.
  intros Hi Hle HS HP Hbig Hp.
  destruct (landscape_result self img Hi Hle HS HP Hbig Hp) as (out & Hc & Hsz).
  exists out, (Resized out (w self) (w self) (interpolation self) false).
  split; [exact Hc |]. split; [ | split; [ | reflexivity]].
  - assert (H : scaled_height (height out) (width out) (w self) = Some (w self)).
    { unfold height, width. rewrite Hsz. cbn [fst snd].
      apply scaled_height_same; lia. }
    rewrite (call_unfold self out _ H) by lia.
    rewrite Z.ltb_irrefl, andb_false_r. reflexivity.
  - rewrite Hsz. reflexivity.
Qed.

Lemma PadResize_twice_witness :
  exists out again,
    call (PadResize_init 800) (Opened 1920 1080) = Some out /\
    call (PadResize_init 800) out = Some again /\
    size again = size out /\ is_padded again = false.
Proof.
  apply (PadResize_twice (PadResize_init 800) (Opened 1920 1080)).
  - unfold well_sized. cbn. lia.
  - cbn. lia.
  - cbn. lia.
  - cbn. lia.
  - cbn. lia.
  - reflexivity.
Defined.



(** X18.  An image with at least one row, but so wide that [h * S < w], is
    scaled to a height of 0: [__call__] asks [F.resize] for a [0] by [S]
    image, which it refuses, and [__call__] raises; no padding takes
    place. *)
Theorem PadResize_flat_image (self : PadResize) (img : Image) :
  well_sized img -> 0 < height img -> 0 < w self < 2 ^ 53 ->
  height img * w self < width img ->
  scaled_height (height img) (width img) (w self) = Some 0 /\
  F_resize img (0, w self) (interpolation self) false = None /\
  call self img = None.
Proof.
  intros Hi Hrow HS Hlt. destruct (well_sized_bounds img Hi) as [Hh Hw].
  destruct Hi as [Hw31 Hh31].
  assert (HP : height img * w self <= 2 ^ 50).
  { assert (2 ^ 31 <= 2 ^ 50) by (apply Z.pow_le_mono_r; lia). lia. }
  destruct (scaled_height_floor (height img) (width img) (w self))
    as (hs & H1 & H2 & _); try lia.
  destruct (scaled_height_total (height img) (width img) (w self))
    as (hs' & H1' & H0); try lia.
  rewrite H1 in H1'. injection H1' as <-.
  assert (HE : height img * w self / width img = 0) by (apply Z.div_small; nia).
  assert (hs = 0) by lia. subst hs.
  split; [exact H1 |]. split; [reflexivity |].
  apply (call_refused self img 0 H1). lia.
Qed.

Lemma PadResize_flat_image_witness :
  scaled_height (height (Opened 10000 12)) (width (Opened 10000 12))
                (w (PadResize_init 800)) = Some 0 /\
  F_resize (Opened 10000 12) (0, w (PadResize_init 800))
           (interpolation (PadResize_init 800)) false = None /\
  call (PadResize_init 800) (Opened 10000 12) = None.
Proof.
  apply (PadResize_flat_image (PadResize_init 800) (Opened 10000 12)).
  - unfold well_sized. cbn. lia.
  - cbn. lia.
  - cbn. lia.
  - cbn. lia.
Defined.

End TransProperties.

(* ================================================================= *)
(** * Further properties of the training loop *)

Module TrainProperties.

Import Train TrainFacts.

Section Properties.

Context {T : Torch}.

Ltac step_appends :=
  repeat first
    [ apply appends_ret
    | apply appends_bind; [ | intros ? ]
    | apply appends_stmt; first [ apply silent_upd_net | intros ?; reflexivity ]
    | apply appends_optimizer_step; intros ? ?; reflexivity
    | apply appends_forward; intros ? ].

(** ** What each statement of the loop can emit *)

Lemma appends_logger_info_off (P : event -> Prop) (self : Trainer) (e : State -> event) :
  is_local_main_process (accelerator self) = false -> appends P (logger_info self e).
Proof. intros H. unfold logger_info. rewrite H. apply appends_ret. Qed.

(** A step emits forward passes, and a training record when it logs. *)
Lemma appends_train_step_when (P : event -> Prop) (self : Trainer) (ep : nat)
      (it : nat * batch) :
  (forall n b x, P (Forward n b x)) ->
  (is_local_main_process (accelerator self) = true -> log_due self (fst it) = true ->
   forall s, P (train_record self ep (fst it) s)) ->
  appends P (train_step self ep it).
Proof.
  intros HF HR. destruct it as [step [[img img_clean] fake_mark]]. cbn [fst] in HR.
  unfold train_step, generator_phase, discriminator_phase, logging,
    module_train, module_eval, module_requires_grad_, zero_grad, accelerator_backward.
  destruct (log_due self step); step_appends; try apply HF.
  unfold logger_info.
  destruct (is_local_main_process (accelerator self));
    [apply appends_emit; apply HR; reflexivity | apply appends_ret].
Qed.

Lemma forwards_test_loop (mean std : tensor) (l : list batch) :
  forall psnr, appends only_forward (test_loop mean std psnr l).
Proof.
  induction l as [ | [[img img_clean] img_mask] l IH]; intros psnr; cbn [test_loop].
  - apply appends_ret.
  - apply appends_bind; [apply appends_forward; intros ?; reflexivity | intros pred].
    apply IH.
Qed.

Lemma forwards_test_local (self : Trainer) (ep : nat) :
  appends only_forward (test_local self ep).
Proof.
  unfold test_local, module_eval.
  apply appends_bind; [apply appends_stmt, silent_upd_net | intros _].
  apply forwards_test_loop.
Qed.

Lemma forwards_epoch (self : Trainer) (reduce : nat -> tensor -> tensor) (ep : nat) :
  is_local_main_process (accelerator self) = false ->
  appends only_forward (epoch self reduce ep).
Proof.
  intros Hoff. unfold epoch, epoch_steps, test, test_mean, save_checkpoint. rewrite Hoff.
  apply appends_bind; [ | intros _ ].
  - apply appends_for_each. intros it.
    apply appends_train_step_when; [reflexivity | congruence].
  - apply appends_bind; [ | intros _; apply appends_ret].
    apply appends_bind; [ | intros v; apply appends_logger_info_off; exact Hoff].
    apply appends_bind; [apply forwards_test_local | intros p; apply appends_ret].
Qed.

Lemma no_record_among_forwards (f : event -> bool) (l : list event) :
  (forall n b x, f (Forward n b x) = false) ->
  Forall only_forward l -> filter f l = [].
Proof.
  intros Hf HF. apply filter_none. eapply Forall_impl; try exact HF.
  intros e He. unfold only_forward in He. destruct e; try discriminate. apply Hf.
Qed.

(** X10.  A process that is not the local main process of its machine
    leaves no trace of a run of [train]: no training record, no PSNR
    record and no checkpoint file; all it does that can be observed is
    run the networks. *)
Theorem off_main_process_writes_nothing (self : Trainer)
        (reduce : nat -> tensor -> tensor) (s : State) :
  is_local_main_process (accelerator self) = false ->
  events (final (train self reduce s)) = events s ++ emitted (train self reduce) s /\
  Forall only_forward (emitted (train self reduce) s) /\
  filter is_log_train (emitted (train self reduce) s) = [] /\
  filter is_log_psnr (emitted (train self reduce) s) = [] /\
  filter is_save (emitted (train self reduce) s) = [].
Proof.
  intros Hoff.
  assert (H : appends only_forward (train self reduce)).
  { unfold train. apply appends_bind; [apply appends_stmt; intros ?; reflexivity | intros _].
    apply appends_for_each. intros ep. apply forwards_epoch. exact Hoff. }
  destruct (appends_emitted only_forward _ s H) as [E HF].
  split; [exact E |]. split; [exact HF |].
  repeat split; apply no_record_among_forwards; try exact HF; reflexivity.
Qed.

(** ** What logging cannot change *)

Lemma learned_logging (self : Trainer) (ep step : nat) (s : State) :
  learned (final (logging self ep step s)) = learned s.
Proof.
  unfold logging, logger_info.
  destruct (log_due self step); [ | reflexivity].
  destruct (is_local_main_process (accelerator self)); reflexivity.
Qed.

Lemma learned_phases (self self' : Trainer) (img img_clean fake_mark : tensor)
      (s s' : State) :
  learned s = learned s' -> alpha self = alpha self' ->
  let r := generator_phase self img img_clean fake_mark s in
  let r' := generator_phase self' img img_clean fake_mark s' in
  learned (final (discriminator_phase self img img_clean (fst (value r)) (final r)))
  = learned (final (discriminator_phase self' img img_clean (fst (value r')) (final r'))).
Proof.
  intros H Ha. destruct s, s'. unfold learned in H. cbn in H.
  injection H as -> -> -> ->.
  destruct self, self'. cbn in Ha. subst. vm_compute. reflexivity.
Qed.

Lemma learned_train_step (self self' : Trainer) (ep ep' step step' : nat) (b : batch)
      (s s' : State) :
  learned s = learned s' -> alpha self = alpha self' ->
  learned (final (train_step self ep (step, b) s))
  = learned (final (train_step self' ep' (step', b) s')).
Proof.
  intros H Ha. destruct b as [[img img_clean] fake_mark]. unfold train_step.
  rewrite !final_bind, !learned_logging. apply learned_phases; assumption.
Qed.

Lemma learned_steps (self self' : Trainer) (ep ep' : nat) (l : list batch) :
  alpha self = alpha self' ->
  forall (k k' : nat) (s s' : State),
  learned s = learned s' ->
  learned (final (for_each (train_step self ep) (combine (seq k (length l)) l) s))
  = learned (final (for_each (train_step self' ep') (combine (seq k' (length l)) l) s')).
Proof.
  intros Ha. induction l as [ | b l IH]; intros k k' s s' H; [exact H |].
  cbn [length seq combine for_each]. rewrite !final_bind.
  apply IH. apply learned_train_step; assumption.
Qed.

Lemma learned_test_loop (mean std : tensor) (l : list batch) :
  forall psnr s, learned (final (test_loop mean std psnr l s)) = learned s.
Proof.
  induction l as [ | [[img img_clean] img_mask] l IH]; intros psnr s; cbn [test_loop].
  - reflexivity.
  - rewrite final_bind, IH. reflexivity.
Qed.

Lemma learned_test (self : Trainer) (reduce : tensor -> tensor) (ep : nat) (s : State) :
  learned (final (test self reduce ep s))
  = (with_training false (net_G s), net_D s, optimizer s, optimizer_D s).
Proof.
  unfold test, test_mean, test_local, logger_info. rewrite !final_bind.
  transitivity (learned (final (test_loop (torch_tensor py_half) (torch_tensor py_half)
                                          (py_float 0) (batches (test_loader self) ep)
                                          (final (module_eval G s))))).
  - destruct (is_local_main_process (accelerator self)); reflexivity.
  - rewrite learned_test_loop. reflexivity.
Qed.

Lemma learned_save_checkpoint (self : Trainer) (ep : nat) (s : State) :
  learned (final (save_checkpoint self ep s)) = learned s.
Proof.
  unfold save_checkpoint. destruct (is_local_main_process (accelerator self)); reflexivity.
Qed.

Lemma learned_epoch (self self' : Trainer) (reduce reduce' : nat -> tensor -> tensor)
      (ep : nat) (s s' : State) :
  alpha self = alpha self' -> train_loader self = train_loader self' ->
  learned s = learned s' ->
  learned (final (epoch self reduce ep s)) = learned (final (epoch self' reduce' ep s')).
Proof.
  intros Ha Hl H. unfold epoch. rewrite !final_bind.
  rewrite !learned_save_checkpoint, !learned_test.
  assert (E : learned (final (epoch_steps self ep s))
              = learned (final (epoch_steps self' ep s'))).
  { unfold epoch_steps, enumerate. rewrite <- Hl. apply learned_steps; assumption. }
  unfold learned in E. injection E as -> -> -> ->. reflexivity.
Qed.

Lemma learned_epochs (self self' : Trainer) (reduce reduce' : nat -> tensor -> tensor)
      (n : nat) :
  alpha self = alpha self' -> train_loader self = train_loader self' ->
  forall (k : nat) (s s' : State),
  learned s = learned s' ->
  learned (final (for_each (epoch self reduce) (seq k n) s))
  = learned (final (for_each (epoch self' reduce') (seq k n) s')).
Proof.
  intros Ha Hl. induction n as [ | n IH]; intros k s s' H; [exact H |].
  cbn [seq for_each]. rewrite !final_bind. apply IH.
  apply learned_epoch; assumption.
Qed.

(** X11.  Logging is a pure observation.  The networks and the optimizers
    a run of [train] ends with depend on the weight [alpha], on the
    training loader, on the number of epochs and on the networks and
    optimizers it starts from, and on nothing else: not on [log_step], not
    on whether the process logs and saves (its rank), not on the test
    loader or the result of the collective of [test], and not on the
    running sums it starts with. *)
Theorem logging_does_not_change_training (self self' : Trainer)
        (reduce reduce' : nat -> tensor -> tensor) (s s' : State) :
  alpha self = alpha self' ->
  train_loader self = train_loader self' ->
  epochs (args self) = epochs (args self') ->
  learned s = learned s' ->
  learned (final (train self reduce s)) = learned (final (train self' reduce' s')).
Proof.
  intros Ha Hl He H. unfold train. rewrite !final_bind, <- He.
  apply learned_epochs; assumption.
Qed.

(** ** Evaluation *)

Lemma emitted_test_loop (mean std : tensor) (l : list batch) :
  forall psnr s, training (net_G s) = false ->
  emitted (test_loop mean std psnr l) s
    = map (fun b : batch => Forward G false (fst (fst b))) l.
Proof.
  induction l as [ | [[img img_clean] img_mask] l IH]; intros psnr s Hs; cbn [test_loop].
  - unfold emitted. cbn. apply skipn_all.
  - rewrite (emitted_bind only_forward);
      [ | apply appends_forward; intros ?; reflexivity
        | intros pred; apply forwards_test_loop ].
    rewrite IH by exact Hs. cbn [map fst]. unfold emitted at 1. cbn.
    rewrite skipn_length_app, Hs. reflexivity.
Qed.

Lemma emitted_test_local (self : Trainer) (ep : nat) (s : State) :
  emitted (test_local self ep) s
    = map (fun b : batch => Forward G false (fst (fst b))) (batches (test_loader self) ep).
Proof.
  unfold test_local.
  rewrite (emitted_bind only_forward);
    [ | apply appends_stmt, silent_upd_net | intros _; apply forwards_test_loop ].
  rewrite emitted_test_loop by reflexivity.
  unfold emitted at 1. cbn. rewrite skipn_all. reflexivity.
Qed.

Lemma emitted_test (self : Trainer) (reduce : tensor -> tensor) (ep : nat) (s : State) :
  emitted (test self reduce ep) s
    = map (fun b : batch => Forward G false (fst (fst b))) (batches (test_loader self) ep)
      ++ (if is_local_main_process (accelerator self)
          then [LogPsnr (value (test_mean self reduce ep s))] else []).
Proof.
  unfold test.
  rewrite (emitted_bind anything);
    [ | unfold test_mean;
        apply appends_bind;
        [ apply (appends_anything _ _ (forwards_test_local self ep))
        | intros p; apply appends_ret ]
      | intros v; apply appends_logger_info; intros _; exact I ].
  f_equal.
  - unfold test_mean.
    rewrite (emitted_bind only_forward);
      [ | apply forwards_test_local | intros p; apply appends_ret ].
    rewrite emitted_test_local. unfold emitted at 1. cbn. rewrite skipn_all.
    apply app_nil_r.
  - unfold logger_info, emitted.
    destruct (is_local_main_process (accelerator self)); cbn.
    + rewrite skipn_length_app. reflexivity.
    + apply skipn_all.
Qed.

(** X9.  [test] only observes.  It leaves the generator in eval mode and
    changes nothing else: the parameters, the gradients and the
    [requires_grad] flags of both networks, both optimizers and both
    running sums are as before.  It runs the generator once per batch of
    the test loader, in eval mode, on the watermarked image of the batch,
    never the discriminator, and then logs one PSNR record if the process
    is a local main process. *)
Theorem test_only_observes (self : Trainer) (reduce : tensor -> tensor) (ep : nat)
        (s : State) :
  learned (final (test self reduce ep s))
    = (with_training false (net_G s), net_D s, optimizer s, optimizer_D s) /\
  sums (final (test self reduce ep s)) = sums s /\
  emitted (test self reduce ep) s
    = map (fun b : batch => Forward G false (fst (fst b))) (batches (test_loader self) ep)
      ++ (if is_local_main_process (accelerator self)
          then [LogPsnr (value (test_mean self reduce ep s))] else []).
Proof.
  split; [apply learned_test |]. split; [apply test_sums | apply emitted_test].
Qed.

(** ** Updates *)

(** X8.  What a step does to the two networks.  The Generator Phase
    replaces the generator's gradient by the gradient of its loss (the
    gradient left by an earlier step is discarded, not accumulated) and
    moves the generator's parameters by one AdamW step on it, at the rate
    of the generator's optimizer; the discriminator, although the loss
    goes through it, receives no gradient and keeps its parameters, and
    its optimizer is untouched.  The Discriminator Phase then does the
    same for the discriminator with the gradient of its own loss, taken at
    the image [fake_A] the Generator Phase produced; the generator keeps
    the parameters and the gradient the Generator Phase left. *)
Theorem each_phase_updates_its_own_network (self : Trainer)
        (img img_clean fake_mark : tensor) (s : State) :
  let wG := state_dict (net_G s) in
  let wD := state_dict (net_D s) in
  let gG := grad_loss_G G wG wD img img_clean fake_mark (alpha self) in
  let uG := adamw (lr (optimizer s)) (opt_state (optimizer s)) wG gG in
  let rG := generator_phase self img img_clean fake_mark s in
  let fake_A := fst (value rG) in
  let gD := grad_loss_D wD img_clean img fake_A in
  let uD := adamw (lr (optimizer_D s)) (opt_state (optimizer_D s)) wD gD in
  let rD := discriminator_phase self img img_clean fake_A (final rG) in
  learned (final rG)
    = ({| state_dict := fst uG; training := true; requires_grad := true;
          grad := Some gG |},
       {| state_dict := wD; training := false; requires_grad := false;
          grad := grad (net_D s) |},
       {| lr := lr (optimizer s); opt_state := snd uG |},
       optimizer_D s) /\
  learned (final rD)
    = ({| state_dict := fst uG; training := false; requires_grad := false;
          grad := Some gG |},
       {| state_dict := fst uD; training := true; requires_grad := true;
          grad := Some gD |},
       {| lr := lr (optimizer s); opt_state := snd uG |},
       {| lr := lr (optimizer_D s); opt_state := snd uD |}).
Proof.
  destruct s as [nG nD oG oD sG sD ev]. destruct nG, nD, oG, oD.
  split; vm_compute; reflexivity.
Qed.

(** ** The learning rate *)

Lemma keeps_ret {A : Type} (I : State -> Prop) (P : event -> Prop) (a : A) :
  keeps I P (ret a).
Proof.
  intros s Hs. split; [exact Hs |]. exists []. cbn. rewrite app_nil_r.
  split; [reflexivity | constructor].
Qed.

Lemma keeps_bind {A B : Type} (I : State -> Prop) (P : event -> Prop)
      (m : M A) (f : A -> M B) :
  keeps I P m -> (forall a, keeps I P (f a)) -> keeps I P (bind m f).
Proof.
  intros Hm Hf s Hs. rewrite final_bind.
  destruct (Hm s Hs) as (I1 & l1 & E1 & H1).
  destruct (Hf (value (m s)) (final (m s)) I1) as (I2 & l2 & E2 & H2).
  split; [exact I2 |].
  exists (l1 ++ l2). rewrite E2, E1, app_assoc.
  split; [reflexivity | apply Forall_app; split; assumption].
Qed.

Lemma keeps_for_each {A : Type} (I : State -> Prop) (P : event -> Prop)
      (f : A -> M unit) (l : list A) :
  (forall x, keeps I P (f x)) -> keeps I P (for_each f l).
Proof.
  intros Hf. induction l as [ | x l IH]; cbn [for_each].
  - apply keeps_ret.
  - apply keeps_bind; [apply Hf | intros _; exact IH].
Qed.

Lemma keeps_stmt (I : State -> Prop) (P : event -> Prop) (f : State -> State) :
  (forall s, I s -> I (f s)) -> silent f -> keeps I P (stmt f).
Proof.
  intros HI Hf s Hs. split; [apply HI, Hs |]. exists []. cbn.
  rewrite Hf, app_nil_r. split; [reflexivity | constructor].
Qed.

Lemma keeps_emit (I : State -> Prop) (P : event -> Prop) (e : State -> event) :
  (forall s, I s -> I (emit (e s) s) /\ P (e s)) ->
  keeps I P (stmt (fun s => emit (e s) s)).
Proof.
  intros He s Hs. destruct (He s Hs) as [H1 H2]. split; [exact H1 |].
  exists [e s]. cbn. split; [reflexivity |]. constructor; [exact H2 | constructor].
Qed.

Lemma keeps_emitted {A : Type} (I : State -> Prop) (P : event -> Prop) (m : M A)
      (s : State) :
  keeps I P m -> I s -> I (final (m s)) /\ Forall P (emitted m s).
Proof.
  intros H Hs. destruct (H s Hs) as (H1 & l & E & Hl). split; [exact H1 |].
  unfold emitted. rewrite E, skipn_length_app. exact Hl.
Qed.

Lemma rate_upd_net (c c' : pyfloat) (n : Net) (f : Module_ -> Module_) :
  keeps (rates_are c c') (reports_rate c) (stmt (upd_net n f)).
Proof.
  apply keeps_stmt; [ | apply silent_upd_net].
  intros s Hs. destruct n; exact Hs.
Qed.

Lemma rate_forward (c c' : pyfloat) (n : Net) (x : tensor) :
  keeps (rates_are c c') (reports_rate c) (forward n x).
Proof.
  intros s Hs. split; [exact Hs |].
  exists [Forward n (training (get_net n s)) x]. cbn.
  split; [reflexivity |]. constructor; [exact I | constructor].
Qed.

Lemma rate_backward (c c' : pyfloat) (g : State -> Net -> option grads) :
  keeps (rates_are c c') (reports_rate c) (accelerator_backward g).
Proof.
  apply keeps_stmt; [intros s Hs; exact Hs | intros s; reflexivity].
Qed.

Lemma rate_sums (c c' : pyfloat) (f g : State -> pyfloat) :
  keeps (rates_are c c') (reports_rate c)
        (stmt (fun s => set_loss_sums (f s) (g s) s)).
Proof.
  apply keeps_stmt; [intros s Hs; exact Hs | intros s; reflexivity].
Qed.

Lemma rate_step_G (c c' : pyfloat) :
  keeps (rates_are c c') (reports_rate c) (optimizer_step optimizer set_optimizer).
Proof.
  apply keeps_stmt.
  - intros s Hs. cbv zeta. destruct (grad (get_net G s)); exact Hs.
  - intros s. cbv zeta. destruct (grad (get_net G s)); reflexivity.
Qed.

Lemma rate_step_D (c c' : pyfloat) :
  keeps (rates_are c c') (reports_rate c) (optimizer_step optimizer_D set_optimizer_D).
Proof.
  apply keeps_stmt.
  - intros s Hs. cbv zeta. destruct (grad (get_net D s)); exact Hs.
  - intros s. cbv zeta. destruct (grad (get_net D s)); reflexivity.
Qed.

Lemma rate_logger_info (c c' : pyfloat) (self : Trainer) (e : State -> event) :
  (forall s, rates_are c c' s -> reports_rate c (e s)) ->
  keeps (rates_are c c') (reports_rate c) (logger_info self e).
Proof.
  intros He. unfold logger_info.
  destruct (is_local_main_process (accelerator self)); [ | apply keeps_ret].
  apply keeps_emit. intros s Hs. split; [exact Hs | apply He, Hs].
Qed.

Ltac rate_steps :=
  repeat first
    [ apply keeps_ret
    | apply keeps_bind; [ | intros ? ]
    | apply rate_upd_net
    | apply rate_forward
    | apply rate_backward
    | apply rate_step_G
    | apply rate_step_D
    | apply rate_sums ].

Lemma rate_train_step (c c' : pyfloat) (self : Trainer) (ep : nat) (it : nat * batch) :
  keeps (rates_are c c') (reports_rate c) (train_step self ep it).
Proof.
  destruct it as [step [[img img_clean] fake_mark]].
  unfold train_step, generator_phase, discriminator_phase, logging,
    module_train, module_eval, module_requires_grad_, zero_grad.
  rate_steps.
  destruct (log_due self step); [ | apply keeps_ret].
  apply keeps_bind; [ | intros _ ].
  - apply rate_logger_info. intros s Hs. unfold rates_are, rates in Hs.
    cbn. congruence.
  - apply keeps_bind; [ | intros _ ].
    + apply (rate_sums c c' (fun _ => py_float 0) loss_sum_D).
    + apply (rate_sums c c' loss_sum_G (fun _ => py_float 0)).
Qed.

Lemma rate_test_loop (c c' : pyfloat) (mean std : tensor) (l : list batch) :
  forall psnr, keeps (rates_are c c') (reports_rate c) (test_loop mean std psnr l).
Proof.
  induction l as [ | [[img img_clean] img_mask] l IH]; intros psnr; cbn [test_loop].
  - apply keeps_ret.
  - apply keeps_bind; [apply rate_forward | intros pred; apply IH].
Qed.

Lemma rate_epoch (c c' : pyfloat) (self : Trainer) (reduce : nat -> tensor -> tensor)
      (ep : nat) :
  keeps (rates_are c c') (reports_rate c) (epoch self reduce ep).
Proof.
  unfold epoch, epoch_steps, test, test_mean, test_local, module_eval, save_checkpoint.
  apply keeps_bind; [apply keeps_for_each; intros it; apply rate_train_step | intros _].
  apply keeps_bind; [ | intros _ ].
  - apply keeps_bind; [ | intros v; apply rate_logger_info; intros s _; exact I].
    apply keeps_bind; [ | intros p; apply keeps_ret].
    apply keeps_bind; [apply rate_upd_net | intros _; apply rate_test_loop].
  - destruct (is_local_main_process (accelerator self)); [ | apply keeps_ret].
    apply (keeps_emit _ _ (fun s => Save (checkpoint_path ep) (state_dict (net_G s)))).
    intros s Hs. split; [exact Hs | exact I].
Qed.

Lemma rate_train (c c' : pyfloat) (self : Trainer) (reduce : nat -> tensor -> tensor) :
  keeps (rates_are c c') (reports_rate c) (train self reduce).
Proof.
  unfold train. apply keeps_bind; [ | intros _ ].
  - apply (rate_sums c c' (fun _ => py_float 0) (fun _ => py_float 0)).
  - apply keeps_for_each. intros ep. apply rate_epoch.
Qed.

Lemma rates_steps (self : Trainer) (ep : nat) (its : list (nat * batch)) (s : State) :
  rates (final (for_each (train_step self ep) its s)) = rates s.
Proof.
  assert (H : keeps (rates_are (lr (optimizer s)) (lr (optimizer_D s)))
                    (reports_rate (lr (optimizer s)))
                    (for_each (train_step self ep) its))
    by (apply keeps_for_each; intros it; apply rate_train_step).
  exact (proj1 (keeps_emitted _ _ _ s H eq_refl)).
Qed.

(** X12.  The learning rate never changes.  [train] steps no scheduler:
    both optimizers end a run with the rate they started with, and every
    training record of the run displays that one rate of the generator's
    optimizer. *)
Theorem learning_rate_never_changes (self : Trainer) (reduce : nat -> tensor -> tensor)
        (s : State) :
  lr (optimizer (final (train self reduce s))) = lr (optimizer s) /\
  lr (optimizer_D (final (train self reduce s))) = lr (optimizer_D s) /\
  Forall (reports_rate (lr (optimizer s))) (emitted (train self reduce) s).
Proof.
  destruct (keeps_emitted _ _ _ s
              (rate_train (lr (optimizer s)) (lr (optimizer_D s)) self reduce)
              eq_refl) as [H1 H2].
  unfold rates_are, rates in H1. injection H1 as HG HD.
  split; [exact HG |]. split; [exact HD | exact H2].
Qed.

(** X16.  A trainer as [__init__] builds it gives both optimizers the
    rate [args.lr] ([build_model]), and that is the rate every training
    record of its run displays, on every process and for every data. *)
Theorem records_display_the_configured_rate (a : Args) (acc : Accelerator)
        (train_set test_set : list sample) (reduce : nat -> tensor -> tensor) :
  let self := fst (Trainer_init a acc train_set test_set) in
  let s0 := snd (Trainer_init a acc train_set test_set) in
  rates s0 = (lr_arg a, lr_arg a) /\
  rates (final (train self reduce s0)) = (lr_arg a, lr_arg a) /\
  Forall (reports_rate (lr_arg a)) (emitted (train self reduce) s0).
Proof.
  intros self s0.
  assert (H0 : rates s0 = (lr_arg a, lr_arg a)) by reflexivity.
  destruct (keeps_emitted _ _ _ s0 (rate_train (lr_arg a) (lr_arg a) self reduce) H0)
    as [H1 H2].
  split; [exact H0 |]. split; [exact H1 | exact H2].
Qed.

(** ** Which steps log *)

Lemma multiples_below (L n : nat) :
  0 < L ->
  filter (fun i => Nat.eqb (i mod L) 0) (seq 0 n)
    = map (fun k => k * L) (seq 0 ((n + L - 1) / L)).
Proof.
  intros HL. induction n as [ | n IH].
  - rewrite Nat.div_small by lia. reflexivity.
  - rewrite seq_S, filter_app, IH, Nat.add_0_l. cbn [filter].
    pose proof (Nat.div_mod_eq n L) as Hn.
    pose proof (Nat.mod_upper_bound n L ltac:(lia)) as Hr.
    destruct (Nat.eqb_spec (n mod L) 0) as [E | E].
    + assert (H1 : (n + L - 1) / L = n / L).
      { symmetry. apply (Nat.div_unique _ _ _ (L - 1)); lia. }
      assert (H2 : (S n + L - 1) / L = S (n / L)).
      { symmetry. apply (Nat.div_unique _ _ _ 0); lia. }
      rewrite H1, H2, seq_S, map_app. cbn [Nat.add map]. f_equal. f_equal. nia.
    + assert (H1 : (n + L - 1) / L = S (n / L)).
      { symmetry. apply (Nat.div_unique _ _ _ (n mod L - 1)); lia. }
      assert (H2 : (S n + L - 1) / L = S (n / L)).
      { symmetry. apply (Nat.div_unique _ _ _ (n mod L)); lia. }
      rewrite H1, H2. apply app_nil_r.
Qed.

Lemma quiet_train_step (self : Trainer) (ep step : nat) (b : batch) (s : State) :
  log_due self step = false ->
  filter is_log_train (emitted (train_step self ep (step, b)) s) = [].
Proof.
  intros H.
  assert (Ha : appends only_forward (train_step self ep (step, b)))
    by (apply appends_train_step_when; [reflexivity | cbn [fst]; congruence]).
  apply no_record_among_forwards; [reflexivity |].
  apply (appends_emitted only_forward _ s Ha).
Qed.

Lemma positions_of_steps (self : Trainer) (ep : nat) (l : list batch) :
  is_local_main_process (accelerator self) = true ->
  forall (k : nat) (s : State),
  map position
      (filter is_log_train
              (emitted (for_each (train_step self ep) (combine (seq k (length l)) l)) s))
    = map (fun i => (ep + 1, i + 1)) (filter (log_due self) (seq k (length l))).
Proof.
  intros Hm. induction l as [ | b l IH]; intros k s.
  - cbn. unfold emitted. cbn. rewrite skipn_all. reflexivity.
  - cbn [length seq combine for_each filter].
    rewrite (emitted_bind not_save);
      [ | apply appends_train_step
        | intros _; apply appends_for_each; intros it; apply appends_train_step ].
    rewrite filter_app, map_app, IH.
    destruct (log_due self k) eqn:Hd.
    + destruct (train_step_logs self ep k b s Hm Hd) as [E _]. rewrite E. reflexivity.
    + rewrite quiet_train_step by exact Hd. reflexivity.
Qed.

(** X13.  Which steps of an epoch log.  On a local main process, an epoch
    of [n] steps with a window of [L] emits exactly [ceil(n/L)] training
    records, in order, displaying the steps [1], [L+1], [2L+1], ... of
    epoch [ep+1]: the steps whose 0-based index is a multiple of [L],
    the first step of the epoch included. *)
Theorem records_of_an_epoch (self : Trainer) (ep : nat) (s : State) :
  is_local_main_process (accelerator self) = true ->
  let n := length (batches (train_loader self) ep) in
  let L := Pos.to_nat (log_step (args self)) in
  map position (filter is_log_train (emitted (epoch_steps self ep) s))
    = map (fun k => (ep + 1, k * L + 1)) (seq 0 ((n + L - 1) / L)).
Proof.
  intros Hm n L. unfold epoch_steps, enumerate.
  rewrite positions_of_steps by exact Hm.
  unfold log_due. fold L. fold n.
  rewrite multiples_below by (unfold L; lia).
  rewrite map_map. reflexivity.
Qed.

(** ** Windows *)

Lemma run_losses_length (self : Trainer) (ep : nat) (its : list (nat * batch)) :
  forall s, length (run_losses self ep its s) = length its.
Proof.
  induction its as [ | it its IH]; intros s; [reflexivity |].
  cbn [run_losses length]. rewrite IH. reflexivity.
Qed.

Lemma run_losses_app (self : Trainer) (ep : nat) (l1 l2 : list (nat * batch)) :
  forall s,
  run_losses self ep (l1 ++ l2) s
    = run_losses self ep l1 s
      ++ run_losses self ep l2 (final (for_each (train_step self ep) l1 s)).
Proof.
  induction l1 as [ | it l1 IH]; intros s; [reflexivity |].
  cbn [app run_losses for_each]. rewrite IH, final_bind. reflexivity.
Qed.

Lemma sums_quiet_steps (self : Trainer) (ep : nat) (its : list (nat * batch)) :
  Forall (quiet self) its ->
  forall s,
  sums (final (for_each (train_step self ep) its s))
    = (fold_left py_add (map fst (run_losses self ep its s)) (loss_sum_G s),
       fold_left py_add (map snd (run_losses self ep its s)) (loss_sum_D s)).
Proof.
  induction 1 as [ | [step b] its Hq _ IH]; intros s; [reflexivity |].
  cbn [for_each run_losses map fold_left snd]. rewrite final_bind, IH.
  pose proof (train_step_sums self ep step b s Hq) as E.
  set (s1 := final (train_step self ep (step, b) s)) in *.
  unfold sums in E. injection E as EG ED. rewrite EG, ED. reflexivity.
Qed.

Lemma records_quiet_steps (self : Trainer) (ep : nat) (its : list (nat * batch)) :
  Forall (quiet self) its ->
  forall s, filter is_log_train (emitted (for_each (train_step self ep) its) s) = [].
Proof.
  induction 1 as [ | [step b] its Hq _ IH]; intros s.
  - unfold emitted. cbn. rewrite skipn_all. reflexivity.
  - cbn [for_each].
    rewrite (emitted_bind not_save);
      [ | apply appends_train_step
        | intros _; apply appends_for_each; intros it; apply appends_train_step ].
    rewrite filter_app, IH, quiet_train_step by exact Hq. reflexivity.
Qed.

Lemma quiet_between_multiples (self : Trainer) (k m : nat) (bs : list batch) :
  m < Pos.to_nat (log_step (args self)) ->
  Forall (quiet self) (combine (seq (k * Pos.to_nat (log_step (args self)) + 1) m) bs).
Proof.
  intros Hm. apply Forall_forall. intros [i b] Hin.
  apply in_combine_l, in_seq in Hin. unfold quiet, log_due. cbn [fst].
  apply Nat.eqb_neq.
  set (L := Pos.to_nat (log_step (args self))) in *.
  replace i with ((i - k * L) + k * L) by lia.
  rewrite Nat.Div0.mod_add, Nat.mod_small; lia.
Qed.

(** X14.  A record that is not the first of its epoch averages a full
    window.  Take the inner loop right after a record (both sums are
    zero) at the step of index [k*L]: it runs the [L-1] steps of indices
    [k*L+1 .. k*L+L-1] without logging, and the step of index [(k+1)*L]
    logs.  That record divides by [L] the sums of exactly [L] losses, those
    of these [L] steps, added from zero in step order, and it is the only
    record of these steps; the sums are zero again after it. *)
Theorem later_records_average_a_full_window (self : Trainer) (ep k : nat)
        (bs : list batch) (b : batch) (s : State) :
  is_local_main_process (accelerator self) = true ->
  let L := Pos.to_nat (log_step (args self)) in
  length bs = L - 1 ->
  sums s = (py_float 0, py_float 0) ->
  let its := combine (seq (k * L + 1) (L - 1)) bs ++ [((k + 1) * L, b)] in
  let ls := run_losses self ep its s in
  length ls = L /\
  filter is_log_train (emitted (for_each (train_step self ep) its) s)
    = [LogTrain (ep + 1) (epochs (args self)) ((k + 1) * L + 1)
                (len_loader (train_loader self))
                (py_div_int (fold_left py_add (map fst ls) (py_float 0))
                            (Zpos (log_step (args self))))
                (py_div_int (fold_left py_add (map snd ls) (py_float 0))
                            (Zpos (log_step (args self))))
                (lr (optimizer s))] /\
  sums (final (for_each (train_step self ep) its s)) = (py_float 0, py_float 0).
Proof.
  intros Hm L Hb Hs its ls. subst its ls.
  assert (HL : 0 < L) by (unfold L; lia).
  pose proof (quiet_between_multiples self k (L - 1) bs ltac:(fold L; lia)) as Hq.
  fold L in Hq.
  set (pre := combine (seq (k * L + 1) (L - 1)) bs) in *.
  set (s1 := final (for_each (train_step self ep) pre s)).
  assert (Hdue : log_due self ((k + 1) * L) = true).
  { unfold log_due. fold L. rewrite Nat.Div0.mod_mul. reflexivity. }
  destruct (train_step_logs self ep ((k + 1) * L) b s1 Hm Hdue) as [E1 E2].
  pose proof (sums_quiet_steps self ep pre Hq s) as Hsum. fold s1 in Hsum.
  unfold sums in Hs. injection Hs as HG HD. rewrite HG, HD in Hsum.
  unfold sums in Hsum. injection Hsum as HG1 HD1.
  pose proof (rates_steps self ep pre s) as Hr. fold s1 in Hr.
  unfold rates in Hr. injection Hr as Hr _.
  split; [ | split].
  - rewrite run_losses_length, length_app. unfold pre.
    rewrite length_combine, length_seq, Hb. cbn [length]. lia.
  - rewrite (emitted_for_each_app not_save) by (intros it; apply appends_train_step).
    rewrite filter_app, records_quiet_steps by exact Hq.
    rewrite emitted_for_each_one. fold s1. rewrite E1.
    rewrite run_losses_app, !map_app, !fold_left_app. fold s1.
    cbn [run_losses map fold_left snd app]. rewrite HG1, HD1, Hr. reflexivity.
  - rewrite final_for_each_app, final_for_each_one. fold s1. exact E2.
Qed.

Lemma train_step_resets (self : Trainer) (ep step : nat) (b : batch) (s : State) :
  log_due self step = true ->
  sums (final (train_step self ep (step, b) s)) = (py_float 0, py_float 0).
Proof.
  intros H. destruct b as [[img img_clean] fake_mark].
  unfold train_step, logging, logger_info. rewrite !final_bind, H.
  destruct (is_local_main_process (accelerator self)); vm_compute; reflexivity.
Qed.

Lemma quiet_after_multiple (self : Trainer) (q m : nat) (bs : list batch) :
  log_due self q = true -> m < Pos.to_nat (log_step (args self)) ->
  Forall (quiet self) (combine (seq (q + 1) m) bs).
Proof.
  intros Hq Hm. unfold log_due in Hq. apply Nat.eqb_eq in Hq.
  set (L := Pos.to_nat (log_step (args self))) in *.
  assert (HL : 0 < L) by (unfold L; lia).
  pose proof (Nat.div_mod_eq q L) as E. rewrite Hq, Nat.add_0_r in E.
  rewrite E at 1. rewrite (Nat.mul_comm L).
  apply quiet_between_multiples. exact Hm.
Qed.

(** X19.  What the sums hold at the end of an epoch.  After the last
    logging step of an epoch (index [length pre]), the remaining steps,
    fewer than [L], only add to the sums; the evaluation and the checkpoint
    leave them alone.  So an epoch ends with the sums of the losses of
    exactly the steps that follow its last record, added from zero in step
    order, on every process (logging or not). *)
Theorem trailing_steps_carry_over (self : Trainer) (reduce : nat -> tensor -> tensor)
        (ep : nat) (s : State) (pre : list batch) (b : batch) (tail : list batch) :
  batches (train_loader self) ep = pre ++ b :: tail ->
  log_due self (length pre) = true ->
  length tail < Pos.to_nat (log_step (args self)) ->
  let s1 := final (for_each (train_step self ep)
                            (enumerate pre ++ [(length pre, b)]) s) in
  let ls := run_losses self ep (combine (seq (length pre + 1) (length tail)) tail) s1 in
  length ls = length tail /\
  sums (final (epoch self reduce ep s))
    = (fold_left py_add (map fst ls) (py_float 0),
       fold_left py_add (map snd ls) (py_float 0)).
Proof.
  intros Hb Hdue Hlen s1 ls. subst ls.
  split.
  - rewrite run_losses_length, length_combine, length_seq. lia.
  - rewrite epoch_sums. unfold epoch_steps, enumerate. rewrite Hb.
    rewrite length_app. cbn [length].
    replace (length pre + S (length tail)) with (length pre + 1 + length tail) by lia.
    rewrite seq_app, seq_app. cbn [seq Nat.add].
    replace (pre ++ b :: tail) with ((pre ++ [b]) ++ tail)
      by (rewrite <- app_assoc; reflexivity).
    rewrite combine_app_same by (rewrite !length_app, length_seq; reflexivity).
    rewrite combine_app_same by apply length_seq.
    cbn [combine]. rewrite final_for_each_app.
    fold (enumerate pre). fold s1.
    rewrite sums_quiet_steps
      by (apply quiet_after_multiple; assumption).
    assert (H0 : sums s1 = (py_float 0, py_float 0)).
    { unfold s1. rewrite final_for_each_app, final_for_each_one.
      apply train_step_resets. exact Hdue. }
    unfold sums in H0. injection H0 as -> ->. reflexivity.
Qed.

(** ** The checkpoint and the evaluation *)

Lemma value_test_loop (mean std : tensor) (l : list batch) :
  forall psnr s,
  value (test_loop mean std psnr l s)
    = fold_left (fun acc (b : batch) =>
                   py_add acc (item (t_sum (cal_psnr
                     (NAFNet (training (net_G s)) (state_dict (net_G s)) (fst (fst b)))
                     (snd (fst b)) mean std))))
                l psnr.
Proof.
  induction l as [ | [[img img_clean] img_mask] l IH]; intros psnr s; cbn [test_loop].
  - reflexivity.
  - rewrite value_bind, IH. reflexivity.
Qed.

(** X15.  The PSNR an epoch logs is measured on the weights it saves.  On
    a local main process, what an epoch reports is one PSNR record
    followed by one checkpoint, in this order.  With [w] the generator's
    parameters at the end of the steps of the epoch, the checkpoint holds
    [w], and the PSNR record is computed from the outputs of the generator
    in eval mode with these same parameters [w]: the PSNR values of its
    output on each watermarked image against the clean image (mean and
    std 0.5) are summed from zero in loader order, passed through the
    collective, and divided by [len(self.data_test)]. *)
Theorem checkpoint_holds_the_evaluated_weights (self : Trainer)
        (reduce : nat -> tensor -> tensor) (ep : nat) (s : State) :
  is_local_main_process (accelerator self) = true ->
  let w := state_dict (net_G (final (epoch_steps self ep s))) in
  let total :=
    fold_left (fun acc (b : batch) =>
                 py_add acc (item (t_sum (cal_psnr
                   (NAFNet false w (fst (fst b))) (snd (fst b))
                   (torch_tensor py_half) (torch_tensor py_half)))))
              (batches (test_loader self) ep) (py_float 0) in
  filter is_report (emitted (epoch self reduce ep) s)
    = [LogPsnr (t_div_int (reduce ep (torch_tensor total))
                          (Z.of_nat (length (data_test self))));
       Save (checkpoint_path ep) w].
Proof.
  intros Hm w total. unfold epoch.
  assert (Hsteps : appends (fun e => is_report e = false) (epoch_steps self ep)).
  { apply appends_for_each. intros it.
    apply appends_train_step_when; intros; reflexivity. }
  rewrite (emitted_bind anything).
  2: apply (appends_anything _ _ (appends_epoch_steps self ep)).
  2: { intros _. apply appends_bind;
         [apply (appends_anything _ _ (appends_test self (reduce ep) ep))
         | intros _; apply appends_save_checkpoint]. }
  rewrite (emitted_bind anything).
  2: apply (appends_anything _ _ (appends_test self (reduce ep) ep)).
  2: intros _; apply appends_save_checkpoint.
  rewrite !filter_app.
  rewrite (filter_none is_report (emitted (epoch_steps self ep) s))
    by (apply (appends_emitted _ _ s Hsteps)).
  rewrite emitted_test, emitted_save_checkpoint, Hm, filter_app.
  rewrite (filter_none is_report (map _ _))
    by (apply Forall_forall; intros e He; apply in_map_iff in He;
        destruct He as (x & <- & _); reflexivity).
  cbn [app filter is_report is_log_psnr is_save orb].
  rewrite test_mean_value.
  pose proof (learned_test self (reduce ep) ep (final (epoch_steps self ep s))) as Ht.
  unfold learned in Ht. injection Ht as Ht _ _ _. rewrite Ht.
  unfold test_local. rewrite value_bind, value_test_loop. reflexivity.
Qed.

(** ** The order of evaluation *)

Lemma chunks_aux_bounded (n fuel : nat) :
  forall l, Forall (fun g : list sample => length g <= n) (chunks_aux fuel n l).
Proof.
  induction fuel as [ | fuel IH]; intros l; cbn [chunks_aux]; [constructor |].
  destruct l as [ | x l]; [constructor |].
  constructor; [ | apply IH].
  rewrite length_firstn. lia.
Qed.

(** X17.  [test] visits the test set in dataset order.  The test loader
    [build_data] makes does not shuffle: in every epoch and on every
    process, the samples of its batches, put end to end, are the test set
    itself, each sample once and in the order of the dataset, and no batch
    holds more than [args.bs] samples. *)
Theorem test_set_is_visited_in_order (a : Args) (acc : Accelerator)
        (train_set test_set : list sample) (ep : nat) :
  0 < bs a ->
  let ld := test_loader (fst (Trainer_init a acc train_set test_set)) in
  concat (sample_groups ld ep) = test_set /\
  Forall (fun g => length g <= bs a) (sample_groups ld ep).
Proof.
  intros Hb ld. subst ld. unfold sample_groups.
  cbn [Trainer_init build_data fst test_loader batch_size shuffle dataset].
  split; [apply concat_chunks; exact Hb | apply chunks_aux_bounded].
Qed.

End Properties.

End TrainProperties.

(* ================================================================= *)
(** * Further concrete runs *)

Module RunProperties.

Import Train TrainFacts TrainProperties Standin.

Lemma off_main_process_writes_nothing_witness :
  is_local_main_process (accelerator (fst second_process_run)) = false /\
  filter is_save (emitted (train (fst second_process_run) no_peers)
                          (snd second_process_run)) = [].
Proof.
  assert (H : is_local_main_process (accelerator (fst second_process_run)) = false)
    by (vm_compute; reflexivity).
  split; [exact H |].
  exact (proj2 (proj2 (proj2 (proj2
           (off_main_process_writes_nothing (fst second_process_run) no_peers
                                            (snd second_process_run) H))))).
Defined.

Lemma logging_does_not_change_training_witness :
  log_step (args (fst short_run)) <> log_step (args (fst second_process_run)) /\
  learned (final (train (fst short_run) no_peers (snd short_run)))
    = learned (final (train (fst second_process_run) no_peers (snd second_process_run))).
Proof.
  split; [vm_compute; discriminate |].
  apply (logging_does_not_change_training (fst short_run) (fst second_process_run)
           no_peers no_peers (snd short_run) (snd second_process_run));
    reflexivity.
Defined.

Lemma records_of_an_epoch_witness :
  map position (filter is_log_train
                       (emitted (epoch_steps (fst short_run) 0) (snd short_run)))
    = [(1, 1)]%nat.
Proof.
  exact (records_of_an_epoch (fst short_run) 0 (snd short_run)
           ltac:(vm_compute; reflexivity)).
Defined.

Lemma later_records_average_a_full_window_witness :
  length (run_losses (fst short_run) 0
            (combine (seq 1 1) [a_batch] ++ [(2%nat, a_batch)]) (snd short_run)) = 2%nat.
Proof.
  exact (proj1 (later_records_average_a_full_window (fst short_run) 0 0 [a_batch]
                  a_batch (snd short_run)
                  ltac:(vm_compute; reflexivity) ltac:(vm_compute; reflexivity)
                  ltac:(reflexivity))).
Defined.

Lemma checkpoint_holds_the_evaluated_weights_witness :
  exists v,
    filter is_report (emitted (epoch (fst short_run) no_peers 0) (snd short_run))
      = [LogPsnr v;
         Save "output_GAN/ep_0.pth"
              (state_dict (net_G (final (epoch_steps (fst short_run) 0 (snd short_run)))))].
Proof.
  eexists.
  exact (checkpoint_holds_the_evaluated_weights (fst short_run) no_peers 0 (snd short_run)
           ltac:(vm_compute; reflexivity)).
Defined.

Lemma test_set_is_visited_in_order_witness :
  concat (sample_groups (test_loader (fst (Trainer_init (some_args 2) (process 0 0 2)
                                             [a_sample] [a_sample; a_sample; a_sample]))) 0)
    = [a_sample; a_sample; a_sample].
Proof.
  exact (proj1 (test_set_is_visited_in_order (some_args 2) (process 0 0 2) [a_sample]
                  [a_sample; a_sample; a_sample] 0 ltac:(cbn; lia))).
Defined.

Lemma trailing_steps_carry_over_witness :
  length (run_losses (fst short_run) 0 (combine (seq (length (@nil batch) + 1)
                                                     (length [a_batch])) [a_batch])
            (final (for_each (train_step (fst short_run) 0)
                             (enumerate [] ++ [(length (@nil batch), a_batch)])
                             (snd short_run))))
    = length [a_batch].
Proof.
  exact (proj1 (trailing_steps_carry_over (fst short_run) no_peers 0 (snd short_run)
                  [] a_batch [a_batch]
                  ltac:(vm_compute; reflexivity) ltac:(vm_compute; reflexivity)
                  ltac:(vm_compute; lia))).
Defined.

End RunProperties.
